(** * Highlight matcher of the PDF viewer (src/components/PDFViewer.tsx)

    A shallow embedding of the "smart bbox highlighting" effect of the
    [PDFViewer] component: the normalised character map built from the text
    layer, the exact / anchor matching of the query, and the projection of the
    matched range to page-relative rectangles.

    Conventions.
    - A JavaScript string is the list of its UTF-16 code units ([Z], 0..65535);
      [split('')], [str[i]] and a regular expression without the [u] flag all
      work on code units.
    - Indices that can carry the sentinel [-1] are [Z], as in the source.
    - Geometry ([DOMRect], [HighlightRect]) is IEEE binary64, the kernel's
      primitive floats, which is what a JavaScript number is.
    - [normalizedQuery.length * 1.5] only ever multiplies a string length, an
      integer far below 2^52, by 1.5: the product is exact in binary64 and is
      modelled by the rational of the same value. *)

From Stdlib Require Import ZArith List Bool Lia String Ascii QArith Floats Sorted.
From Stdlib Require DecimalZ.
Import ListNotations.

Local Open Scope Z_scope.

(* [String] brings its own [length]; lists are what the model measures. *)
#[local] Abbreviation length := Datatypes.length.

(* ================================================================== *)
(** ** JavaScript strings and the string methods the component calls   *)
(* ================================================================== *)

Module JS.

(** A UTF-16 code unit. *)
Definition char := Z.

Definition jsstring := list char.

(** [s.length] *)
Definition strlen (s : jsstring) : Z := Z.of_nat (length s).

(** A string literal of the source, for ASCII text. *)
Definition lit (s : string) : jsstring :=
  map (fun a => Z.of_N (N_of_ascii a)) (list_ascii_of_string s).

(** [q] occurs in [s] at offset 0. *)
Fixpoint startsWith (s q : jsstring) {struct q} : bool :=
  match q, s with
  | [], _ => true
  | _ :: _, [] => false
  | c :: q', d :: s' => (c =? d) && startsWith s' q'
  end.

(** The scan of [String.prototype.indexOf]: [s] is the rest of the string,
    whose first code unit has index [k]. *)
Fixpoint indexOf_scan (s q : jsstring) (k : Z) : Z :=
  if startsWith s q then k
  else match s with
       | [] => -1
       | _ :: s' => indexOf_scan s' q (k + 1)
       end.

(** [s.indexOf(q, position)]: the position is clamped to [0, s.length], the
    result is the least index at or after it where [q] occurs, or [-1]. *)
Definition indexOf (s q : jsstring) (position : Z) : Z :=
  let start := Z.min (Z.max position 0) (strlen s) in
  indexOf_scan (skipn (Z.to_nat start) s) q start.

(** [s.substring(a, b)]: both ends are clamped to [0, s.length] and swapped
    when out of order. *)
Definition substring (s : jsstring) (a b : Z) : jsstring :=
  let a' := Z.min (Z.max a 0) (strlen s) in
  let b' := Z.min (Z.max b 0) (strlen s) in
  let from := Z.min a' b' in
  let to := Z.max a' b' in
  firstn (Z.to_nat (to - from)) (skipn (Z.to_nat from) s).

(** [s.substring(a)] *)
Definition substring_from (s : jsstring) (a : Z) : jsstring :=
  substring s a (strlen s).

(** The slice of [s] that starts at index [k] and has the length of [q]:
    what an occurrence of [q] at [k] has to equal. *)
Definition occurs_at (s q : jsstring) (k : Z) : Prop :=
  0 <= k /\ k + strlen q <= strlen s /\
  firstn (length q) (skipn (Z.to_nat k) s) = q.

(** [arr[i]] for a number [i] that is an integer: [undefined] out of range. *)
Definition array_get {A} (arr : list A) (i : Z) : option A :=
  if i <? 0 then None else nth_error arr (Z.to_nat i).

(** Completion of a DOM call: a value, or a thrown exception. *)
Inductive DOMException : Type :=
| IndexSizeError
| InvalidNodeTypeError
| InvalidStateError.

Inductive Completion (A : Type) : Type :=
| Normal (a : A)
| Throw (e : DOMException).

Arguments Normal {A} a.
Arguments Throw {A} e.

Definition bind {A B} (m : Completion A) (k : A -> Completion B) : Completion B :=
  match m with
  | Normal a => k a
  | Throw e => Throw e
  end.

(** [try { body } catch (e) { handler(e) }] *)
Definition try_catch {A} (body : Completion A) (handler : DOMException -> Completion A)
  : Completion A :=
  match body with
  | Normal a => Normal a
  | Throw e => handler e
  end.

End JS.

Import JS.

Notation "x <- m ;; k" := (bind m (fun x => k))
  (at level 61, m at next level, right associativity).

(* ================================================================== *)
(** ** The highlight effect of [PDFViewer]                              *)
(* ================================================================== *)

Module PDFViewer.

(** [/[a-zA-Z0-9\u4e00-\u9fa5]/.test(char)] on a single code unit. *)
Definition isAlphaNumeric (c : char) : bool :=
  ((97 <=? c) && (c <=? 122))            (* a-z *)
  || ((65 <=? c) && (c <=? 90))          (* A-Z *)
  || ((48 <=? c) && (c <=? 57))          (* 0-9 *)
  || ((19968 <=? c) && (c <=? 40869)).   (* \u4e00-\u9fa5 *)

(** [char.toLowerCase()] on a code unit that passed [isAlphaNumeric]: the
    Latin capitals move down by 32, digits and CJK ideographs have no case. *)
Definition toLowerCase1 (c : char) : char :=
  if (65 <=? c) && (c <=? 90) then c + 32 else c.

(** [str.toLowerCase()] on a string of such code units. *)
Definition toLowerCase (s : jsstring) : jsstring := map toLowerCase1 s.

(** [highlightText.split('').filter(isAlphaNumeric).join('').toLowerCase()] *)
Definition normalizeQuery (highlightText : jsstring) : jsstring :=
  toLowerCase (filter isAlphaNumeric highlightText).

(** *** The text layer and the character map *)

(** A [Text] node of the text layer. [textContent] of a [Text] node is its
    data, never [null], so [txtNode.textContent || ""] is the data itself. *)
Record Text := { textContent : jsstring }.

(** An entry [{ node, index }] of [charMap]. The node reference is the position
    of the node in [textNodes]: the tree walker yields every text node once. *)
Record CharMapEntry := { node : nat; index : nat }.

(** The two accumulators of step 1, which grow together. *)
Record CharMapState := {
  normalizedPdfText : jsstring;
  charMap : list CharMapEntry
}.

(** [for (let i = 0; i < str.length; i++) { ... }] from [i] on, [str] being
    what is left of the node's text. *)
Fixpoint scanText (txtNode : nat) (str : jsstring) (i : nat) (st : CharMapState)
  : CharMapState :=
  match str with
  | [] => st
  | char :: rest =>
      scanText txtNode rest (S i)
        (if isAlphaNumeric char
         then {| normalizedPdfText := normalizedPdfText st ++ [toLowerCase1 char];
                 charMap := charMap st ++ [{| node := txtNode; index := i |}] |}
         else st)
  end.

(** [for (const txtNode of textNodes) { ... }], [n] being the position of the
    first node of [textNodes]. *)
Fixpoint scanNodes (textNodes : list Text) (n : nat) (st : CharMapState)
  : CharMapState :=
  match textNodes with
  | [] => st
  | txtNode :: rest => scanNodes rest (S n) (scanText n (textContent txtNode) 0 st)
  end.

Definition buildMap (textNodes : list Text) : CharMapState :=
  scanNodes textNodes 0 {| normalizedPdfText := []; charMap := [] |}.

(** *** Step 3: exact match, then head and tail anchors *)

Definition ANCHOR_LEN (normalizedQuery : jsstring) : Z :=
  Z.min 30 (strlen normalizedQuery / 2).

(** [normalizedQuery.length * 1.5] *)
Definition maxDistance (normalizedQuery : jsstring) : Q :=
  (inject_Z (strlen normalizedQuery) * (3 # 2))%Q.

(** [a < b] on numbers. *)
Definition Qltb (a b : Q) : bool := negb (Qle_bool b a).

(** [normalizedQuery.substring(0, ANCHOR_LEN)] *)
Definition head (normalizedQuery : jsstring) : jsstring :=
  substring normalizedQuery 0 (ANCHOR_LEN normalizedQuery).

(** [normalizedQuery.substring(normalizedQuery.length - ANCHOR_LEN)] *)
Definition tail (normalizedQuery : jsstring) : jsstring :=
  substring_from normalizedQuery (strlen normalizedQuery - ANCHOR_LEN normalizedQuery).

(** The [else] branch of the match logic; [(startIndex, endIndex)] stay
    [(-1, -1)] unless both anchors are accepted. *)
Definition anchorFallback (normalizedPdfText normalizedQuery : jsstring) : Z * Z :=
  let ANCHOR_LEN := ANCHOR_LEN normalizedQuery in
  if 5 <? ANCHOR_LEN then
    let head := head normalizedQuery in
    let tail := tail normalizedQuery in
    let headIndex := indexOf normalizedPdfText head 0 in
    if negb (headIndex =? -1) then
      let searchStart := headIndex + ANCHOR_LEN in
      let maxDistance := maxDistance normalizedQuery in
      let tailIndex := indexOf normalizedPdfText tail searchStart in
      if negb (tailIndex =? -1) && Qltb (inject_Z (tailIndex - headIndex)) maxDistance
      then (headIndex, tailIndex + strlen tail - 1)
      else (-1, -1)
    else (-1, -1)
  else (-1, -1).

(** [(startIndex, endIndex)] after step 3. *)
Definition matchLogic (normalizedPdfText normalizedQuery : jsstring) : Z * Z :=
  let startIndex := indexOf normalizedPdfText normalizedQuery 0 in
  if negb (startIndex =? -1)
  then (startIndex, startIndex + strlen normalizedQuery - 1)
  else anchorFallback normalizedPdfText normalizedQuery.

(** *** Geometry *)

Record DOMRect := { left : float; top : float; width : float; height : float }.

(** [HighlightRect] has the same four fields. *)
Definition HighlightRect := DOMRect.

(** The boundary points of the range after [setStart] and [setEnd]. *)
Record Range := {
  startContainer : nat; startOffset : nat;
  endContainer : nat; endOffset : nat
}.

(** What [pageContainerRef.current] answers during one computation. The range
    calls may throw; the model leaves open when they do. *)
Record Container := {
  (* querySelector('.react-pdf__Page__textContent') and the text nodes the
     tree walker finds under it; [None] when the element is missing *)
  textLayer : option (list Text);
  range_setStart : nat -> nat -> Completion unit;
  range_setEnd : nat -> nat -> Completion unit;
  range_getClientRects : Range -> Completion (list DOMRect);
  (* querySelector('.react-pdf__Page')?.getBoundingClientRect() *)
  pageRect : option DOMRect
}.

Local Open Scope float_scope.

(* [0.9] is read as the nearest binary64, as JavaScript reads it. *)
#[local] Set Warnings "-inexact-float".

(** The loop over [rects] that fills [newHighlights]. *)
Fixpoint projectRects (rects : list DOMRect) (pageRect : DOMRect) : list HighlightRect :=
  match rects with
  | [] => []
  | r :: rest =>
      if (width r <? 1) || (height r <? 1) then projectRects rest pageRect
      else if (width pageRect * 0.9 <? width r) && (height pageRect * 0.9 <? height r)
      then projectRects rest pageRect
      else {| left := left r - left pageRect;
              top := top r - top pageRect;
              width := width r;
              height := height r |} :: projectRects rest pageRect
  end.

Local Close Scope float_scope.

(** What one run of [calculateHighlights] did to the component. *)
Inductive Outcome : Type :=
| Returned                       (* [return] before any [setHighlights] *)
| SetHighlights (hs : list HighlightRect) (scrollIntoView : option nat)
| Caught (e : DOMException).     (* [console.error(..., e); setHighlights([])] *)

(** The argument of [setHighlights], if it was called. *)
Definition written (o : Outcome) : option (list HighlightRect) :=
  match o with
  | Returned => None
  | SetHighlights hs _ => Some hs
  | Caught _ => Some []
  end.

(** [const range = document.createRange()] and the [try { ... } catch (e)
    { ... }] statement, on the two entries the span resolved to.
    [createRange] has no failure case; the calls on the range may throw. *)
Definition highlightRange (c : Container) (startNodeData endNodeData : CharMapEntry)
  : Completion Outcome :=
  try_catch
    (_ <- range_setStart c (node startNodeData) (index startNodeData) ;;
     _ <- range_setEnd c (node endNodeData) (index endNodeData + 1)%nat ;;
     rects <- range_getClientRects c
                {| startContainer := node startNodeData;
                   startOffset := index startNodeData;
                   endContainer := node endNodeData;
                   endOffset := (index endNodeData + 1)%nat |} ;;
     match pageRect c with
     | None => Normal Returned
     | Some pageRect =>
         let newHighlights := projectRects rects pageRect in
         Normal (SetHighlights newHighlights
                   (if (0 <? Z.of_nat (length newHighlights))
                    then Some (node startNodeData) else None))
     end)
    (fun e => Normal (Caught e)).

(** From [if (!charMap[startIndex] || !charMap[endIndex]) return;] to the end
    of [calculateHighlights]. *)
Definition projectSpan (c : Container) (charMap : list CharMapEntry)
    (startIndex endIndex : Z) : Completion Outcome :=
  match array_get charMap startIndex, array_get charMap endIndex with
  | Some startNodeData, Some endNodeData => highlightRange c startNodeData endNodeData
  | _, _ => Normal Returned
  end.

Definition calculateHighlights (current : option Container) (highlightText : jsstring)
  : Completion Outcome :=
  match current with
  | None => Normal Returned
  | Some c =>
      match textLayer c with
      | None => Normal Returned
      | Some textNodes =>
          if Z.of_nat (length textNodes) =? 0 then Normal Returned else
          let st := buildMap textNodes in
          let normalizedQuery := normalizeQuery highlightText in
          if strlen normalizedQuery <? 5 then Normal Returned else
          let '(startIndex, endIndex) :=
            matchLogic (normalizedPdfText st) normalizedQuery in
          if (startIndex =? -1) || (endIndex =? -1)
          then Normal (SetHighlights [] None)
          else projectSpan c (charMap st) startIndex endIndex
      end
  end.

(** *** The effect *)

Record Props := {
  highlightText : option jsstring;      (* string | null | undefined *)
  textLayerReady : bool;
  pageContainerRef : option Container   (* pageContainerRef.current *)
}.

(** The effect body together with its timer callback: the basic guard, then
    [calculateHighlights]. *)
Definition highlightEffect (p : Props) : Completion Outcome :=
  match highlightText p, pageContainerRef p with
  | Some text, Some c =>
      if (strlen text <? 5) || negb (textLayerReady p)
      then Normal (SetHighlights [] None)
      else calculateHighlights (Some c) text
  | _, _ => Normal (SetHighlights [] None)
  end.

(** The [highlights] state after the effect ran on the state [highlights]. *)
Definition runEffect (p : Props) (highlights : list HighlightRect)
  : Completion (list HighlightRect) :=
  o <- highlightEffect p ;;
  Normal (match written o with Some hs => hs | None => highlights end).

End PDFViewer.

Import PDFViewer.

(* ================================================================== *)
(** ** Notions the statements are written with                          *)
(* ================================================================== *)

(** Fragment-traversal order on (fragment, offset) pairs. *)
Definition entry_lt (a b : CharMapEntry) : Prop :=
  (node a < node b)%nat \/ (node a = node b /\ (index a < index b)%nat).

(** What the inner loop appends for one text node, from offset [i] on: the
    lower-cased code unit for [normalizedPdfText], its entry for [charMap]. *)
Fixpoint textItems (txtNode : nat) (str : jsstring) (i : nat)
  : list (char * CharMapEntry) :=
  match str with
  | [] => []
  | char :: rest =>
      (if isAlphaNumeric char
       then [(toLowerCase1 char, {| node := txtNode; index := i |})]
       else [])
      ++ textItems txtNode rest (S i)
  end.

(** What the outer loop appends for the nodes from position [n] on. *)
Fixpoint nodesItems (textNodes : list Text) (n : nat) : list (char * CharMapEntry) :=
  match textNodes with
  | [] => []
  | txtNode :: rest => textItems n (textContent txtNode) 0 ++ nodesItems rest (S n)
  end.

(** [headIndex] and [tailIndex] of the anchor fallback. *)
Definition headIndex (text nq : jsstring) : Z := indexOf text (head nq) 0.

Definition tailIndex (text nq : jsstring) : Z :=
  indexOf text (tail nq) (headIndex text nq + ANCHOR_LEN nq).

(** Range construction and rectangle extraction: the three range calls of the
    [try] block, in order. *)
Definition rangeRects (c : Container) (sd ed : CharMapEntry) : Completion (list DOMRect) :=
  _ <- range_setStart c (node sd) (index sd) ;;
  _ <- range_setEnd c (node ed) (index ed + 1)%nat ;;
  range_getClientRects c
    {| startContainer := node sd; startOffset := index sd;
       endContainer := node ed; endOffset := (index ed + 1)%nat |}.

(** The computation on container [c] and query [text] gets as far as the
    [try] block, with the span resolved to the entries [sd] and [ed]. *)
Definition reachesRange (c : Container) (text : jsstring) (sd ed : CharMapEntry) : Prop :=
  exists textNodes startIndex endIndex,
    textLayer c = Some textNodes /\
    textNodes <> [] /\
    5 <= strlen (normalizeQuery text) /\
    matchLogic (normalizedPdfText (buildMap textNodes)) (normalizeQuery text)
      = (startIndex, endIndex) /\
    startIndex <> -1 /\ endIndex <> -1 /\
    array_get (charMap (buildMap textNodes)) startIndex = Some sd /\
    array_get (charMap (buildMap textNodes)) endIndex = Some ed.

Local Open Scope float_scope.
#[local] Set Warnings "-inexact-float".

(** [r.width < 1 || r.height < 1] *)
Definition degenerate (r : DOMRect) : bool := (width r <? 1) || (height r <? 1).

(** [r.width > pageRect.width * 0.9 && r.height > pageRect.height * 0.9] *)
Definition exceeds90 (r pageRect : DOMRect) : bool :=
  (width pageRect * 0.9 <? width r) && (height pageRect * 0.9 <? height r).

(** The rectangle covers at least 90% of both page dimensions. *)
Definition covers90 (r pageRect : DOMRect) : bool :=
  (width pageRect * 0.9 <=? width r) && (height pageRect * 0.9 <=? height r).

(** The rectangle in page-relative coordinates. *)
Definition relativize (r pageRect : DOMRect) : HighlightRect :=
  {| left := left r - left pageRect;
     top := top r - top pageRect;
     width := width r;
     height := height r |}.

Local Close Scope float_scope.




(** Entry [it] of the index points at an alphanumeric code unit of a node of
    [textNodes], whose lower case is the normalised character. *)
Definition item_ok (textNodes : list Text) (it : char * CharMapEntry) : Prop :=
  exists t c,
    nth_error textNodes (node (snd it)) = Some t /\
    nth_error (textContent t) (index (snd it)) = Some c /\
    isAlphaNumeric c = true /\
    fst it = toLowerCase1 c.

(* ================================================================== *)
(** ** Sample pages and queries                                         *)
(* ================================================================== *)

(** A page of two text fragments whose normalised text is
    [thequickbrownfoxjumpsoverthelazydog]. *)
Definition fox_page : list Text :=
  [ {| textContent := lit "The quick, brown" |};
    {| textContent := lit " fox jumps over the lazy dog." |} ].

Definition fox_text : jsstring := lit "thequickbrownfoxjumpsoverthelazydog".

Definition fox_query : jsstring := lit "brownfoxjumps".

(** A paraphrased query: its two six-character anchors are on the page,
    eleven characters of other text apart. *)
Definition reflow_text : jsstring := lit "abcdefxxxxxxxxxxxuvwxyz".

Definition reflow_query : jsstring := lit "abcdefuvwxyz".

Local Open Scope float_scope.

Definition page_box : DOMRect :=
  {| left := 10; top := 20; width := 600; height := 800 |}.

(** The two line boxes of "brown / fox jumps". *)
Definition fox_rects : list DOMRect :=
  [ {| left := 110; top := 52; width := 38; height := 12 |};
    {| left := 20; top := 66; width := 61; height := 12 |} ].

(** A rendered page: the range calls succeed. *)
Definition fox_container : Container :=
  {| textLayer := Some fox_page;
     range_setStart := fun _ _ => Normal tt;
     range_setEnd := fun _ _ => Normal tt;
     range_getClientRects := fun _ => Normal fox_rects;
     pageRect := Some page_box |}.

(** The same page while its fragments are being replaced: [setEnd] throws. *)
Definition detached_container : Container :=
  {| textLayer := Some fox_page;
     range_setStart := fun _ _ => Normal tt;
     range_setEnd := fun _ _ => Throw InvalidNodeTypeError;
     range_getClientRects := fun _ => Normal fox_rects;
     pageRect := Some page_box |}.

(** The same page without a page element. *)
Definition boxless_container : Container :=
  {| textLayer := Some fox_page;
     range_setStart := fun _ _ => Normal tt;
     range_setEnd := fun _ _ => Normal tt;
     range_getClientRects := fun _ => Normal fox_rects;
     pageRect := None |}.

(** A 100 x 100 page and a rectangle of exactly 90 x 90 on it. *)
Definition square_page : DOMRect :=
  {| left := 0; top := 0; width := 100; height := 100 |}.

Definition ninety_rect : DOMRect :=
  {| left := 5; top := 5; width := 90; height := 90 |}.

Definition ninety_one_rect : DOMRect :=
  {| left := 4; top := 4; width := 91; height := 91 |}.

Definition ninety_container : Container :=
  {| textLayer := Some fox_page;
     range_setStart := fun _ _ => Normal tt;
     range_setEnd := fun _ _ => Normal tt;
     range_getClientRects := fun _ => Normal [ninety_rect];
     pageRect := Some square_page |}.

(** Highlights left on screen by an earlier query. *)
Definition stale_highlights : list HighlightRect :=
  [ {| left := 100; top := 32; width := 38; height := 12 |} ].

Local Close Scope float_scope.

(** A query of nine characters, two of them alphanumeric. *)
Definition list_marker_query : jsstring := lit "(1) - (2)".

Definition props_of (c : Container) (text : jsstring) : Props :=
  {| highlightText := Some text; textLayerReady := true; pageContainerRef := Some c |}.

(** The text of a page as the reader sees it: the fragments' text in order. *)
Definition pageText (textNodes : list Text) : jsstring :=
  List.concat (map textContent textNodes).

(** A stretch of [fox_page] that runs across its two fragments, and the same
    words as a model would quote them back. *)
Definition fox_stretch : jsstring := lit "brown fox jumps".

Definition fox_quoted : jsstring := lit "Brown Fox-Jumps!".

(** A query none of whose words are on [fox_page]. *)
Definition absent_query : jsstring := lit "Lorem ipsum dolor sit amet".

(* ================================================================== *)
(** ** The control bar of [PDFViewer] and the keys of [App]             *)
(* ================================================================== *)

(** [Math.max] and [Math.min] on two numbers: [NaN] if either is, and [-0]
    below [+0]. *)
Module JSMath.

Local Open Scope float_scope.

Definition is_negzero (x : float) : bool :=
  match classify x with NZero => true | _ => false end.

Definition max (a b : float) : float :=
  if is_nan a || is_nan b then nan
  else if a <? b then b
  else if b <? a then a
  else if is_negzero a then b else a.

Definition min (a b : float) : float :=
  if is_nan a || is_nan b then nan
  else if a <? b then a
  else if b <? a then b
  else if is_negzero b then b else a.

End JSMath.

Module PageControls.

Local Open Scope float_scope.
#[local] Set Warnings "-inexact-float".

(** The updater that [changeScale(delta)] passes to [setScale]. *)
Definition changeScale (delta prevScale : float) : float :=
  JSMath.min (JSMath.max 0.6 (prevScale + delta)) 2.5.

(** [useState(1.2)] *)
Definition initialScale : float := 1.2.

(** The scale after the zoom buttons were pressed with these deltas, in order. *)
Definition zoomed (deltas : list float) (scale : float) : float :=
  fold_left (fun sc delta => changeScale delta sc) deltas scale.

Local Close Scope float_scope.

(** [numPages || 0], [numPages] being [null] until the document has loaded.
    Page numbers are integers, exact as JavaScript numbers. *)
Definition numPagesOr0 (numPages : option Z) : Z :=
  match numPages with Some n => n | None => 0 end.

(** [disabled={pageNumber <= 1}] *)
Definition prevDisabled (pageNumber : Z) : bool := pageNumber <=? 1.

(** [disabled={pageNumber >= (numPages || 0)}] *)
Definition nextDisabled (pageNumber : Z) (numPages : option Z) : bool :=
  numPagesOr0 numPages <=? pageNumber.

(** A click on the previous-page button: the argument of [onPageChange], or
    nothing when the button is disabled. *)
Definition clickPrev (pageNumber : Z) : option Z :=
  if prevDisabled pageNumber then None else Some (pageNumber - 1).

(** A click on the next-page button. *)
Definition clickNext (pageNumber : Z) (numPages : option Z) : option Z :=
  if nextDisabled pageNumber numPages then None else Some (pageNumber + 1).

End PageControls.

(** The paging part of [App]: it holds [currentPage], passes it to [PDFViewer]
    as [pageNumber] with [onPageChange={setCurrentPage}], and listens to the
    arrow keys in reading mode. *)
Module App.

Inductive Key : Type := ArrowLeft | ArrowRight | OtherKey.

(** What [handleKeyDown] does to [currentPage]: the updater it passes to
    [setCurrentPage], if any. [currentPage] is the value the handler closed
    over; [targetIsInput] says that the event target is an input or a text
    area. *)
Definition handleKeyDown (currentPage : Z) (targetIsInput : bool) (key : Key)
  : option (Z -> Z) :=
  if targetIsInput then None
  else match key with
       | ArrowLeft => if 1 <? currentPage then Some (fun p => p - 1) else None
       | ArrowRight => Some (fun p => p + 1)
       | OtherKey => None
       end.

(** What can happen to the page while a document is read. *)
Inductive NavEvent : Type :=
| ClickPrev
| ClickNext
| KeyDown (targetIsInput : bool) (key : Key).

(** One event, handled by the handlers of the latest render: the buttons see
    [pageNumber = currentPage], the key handler closed over [currentPage]. *)
Definition step (numPages : option Z) (currentPage : Z) (ev : NavEvent) : Z :=
  match ev with
  | ClickPrev =>
      match PageControls.clickPrev currentPage with
      | Some page => page           (* setCurrentPage(page) *)
      | None => currentPage
      end
  | ClickNext =>
      match PageControls.clickNext currentPage numPages with
      | Some page => page
      | None => currentPage
      end
  | KeyDown targetIsInput key =>
      match handleKeyDown currentPage targetIsInput key with
      | Some updater => updater currentPage
      | None => currentPage
      end
  end.

Definition run (numPages : option Z) (events : list NavEvent) (currentPage : Z) : Z :=
  fold_left (step numPages) events currentPage.

Definition isClick (ev : NavEvent) : bool :=
  match ev with ClickPrev | ClickNext => true | KeyDown _ _ => false end.

End App.

(* ================================================================== *)
(** ** Cleaning of model replies, the selection menu, the loader        *)
(* ================================================================== *)

(** [String.prototype.trim] and a global replace of a literal by nothing. *)
Module JSText.

(** WhiteSpace and LineTerminator code units, the ones [trim] strips. *)
Definition isWhiteSpace (c : char) : bool :=
  ((9 <=? c) && (c <=? 13))              (* TAB LF VT FF CR *)
  || (c =? 32) || (c =? 160) || (c =? 5760)
  || ((8192 <=? c) && (c <=? 8202))      (* U+2000 .. U+200A *)
  || (c =? 8232) || (c =? 8233) || (c =? 8239) || (c =? 8287)
  || (c =? 12288) || (c =? 65279).

Fixpoint trimStart (s : jsstring) : jsstring :=
  match s with
  | [] => []
  | c :: rest => if isWhiteSpace c then trimStart rest else s
  end.

Definition trimEnd (s : jsstring) : jsstring := rev (trimStart (rev s)).

(** [s.trim()] *)
Definition trim (s : jsstring) : jsstring := trimEnd (trimStart s).

(** The scan of [s.replace(/pat/g, '')] for a pattern of literal characters:
    [skip] code units of a match are still to be dropped. *)
Fixpoint removeAll_scan (pat s : jsstring) (skip : nat) : jsstring :=
  match s with
  | [] => []
  | c :: rest =>
      match skip with
      | S k => removeAll_scan pat rest k
      | O => if startsWith (c :: rest) pat
             then removeAll_scan pat rest (length pat - 1)
             else c :: removeAll_scan pat rest 0
      end
  end.

(** [s.replace(/pat/g, '')], [pat] literal and not empty. *)
Definition removeAll (pat s : jsstring) : jsstring := removeAll_scan pat s 0.

(** [q] occurs somewhere in [s]. *)
Definition contains (s q : jsstring) : Prop := exists a b, s = a ++ q ++ b.

End JSText.

(** The reply cleaning of the model services. *)
Module Service.

Definition fence : jsstring := [96; 96; 96].

Definition fence_json : jsstring := fence ++ lit "json".

(** [text.replace(/```json/g, '').replace(/```/g, '').trim()], the expression
    the services apply to a reply before [JSON.parse]. *)
Definition stripFences (text : jsstring) : jsstring :=
  JSText.trim (JSText.removeAll fence (JSText.removeAll fence_json text)).

(** [cleanJson(text)] *)
Definition cleanJson (text : jsstring) : jsstring :=
  match text with
  | [] => lit "{}"                      (* !text *)
  | _ => stripFences text
  end.

End Service.

(** The selection menu of [PDFViewer]. *)
Module SelectionMenu.

Local Open Scope float_scope.

(** What [window.getSelection()] answers at mouse-up. *)
Record Selection := {
  isCollapsed : bool;
  toString : jsstring;
  (* pageContainerRef.current.contains(selection.anchorNode) *)
  anchorInContainer : bool;
  (* selection.getRangeAt(0).getBoundingClientRect() *)
  rangeRect : DOMRect
}.

Record Menu := { x : float; y : float; text : jsstring }.

(** The argument of [setSelectionMenu] in [handleMouseUp]. *)
Definition handleMouseUp (selection : option Selection) (containerMounted : bool)
  : option Menu :=
  match selection with
  | None => None
  | Some sel =>
      if isCollapsed sel || negb containerMounted then None
      else
        let text := JSText.trim (toString sel) in
        if (0 <? strlen text)%Z && anchorInContainer sel
        then Some {| x := left (rangeRect sel) + width (rangeRect sel) / 2;
                     y := top (rangeRect sel) - 10;
                     text := text |}
        else None
  end.

(** A selection inside the page, and one of blanks only. *)
Definition dog_selection : Selection :=
  {| isCollapsed := false; toString := lit " lazy dog ";
     anchorInContainer := true; rangeRect := page_box |}.

Definition blank_selection : Selection :=
  {| isCollapsed := false; toString := lit "   ";
     anchorInContainer := true; rangeRect := page_box |}.

End SelectionMenu.

(** The progress bar and the rotating message of the loader. *)
Module GamifiedLoader.

Local Open Scope float_scope.
#[local] Set Warnings "-inexact-float".

(** The updater of [progress], run every 100 ms. *)
Definition tick (prev : float) : float :=
  let remaining := 100 - prev in
  let step := JSMath.max (remaining * 0.02) 0.05 in
  let next := prev + step in
  if 99.5 <=? next then 99.5 else next.

Definition ticks (n : nat) (progress : float) : float :=
  Nat.iter n tick progress.

Local Close Scope float_scope.

(** [LOADING_MESSAGES.length] *)
Definition LOADING_MESSAGES_length : Z := 7.

(** The updater of [messageIndex], run every 2500 ms. JavaScript's [%] takes
    the sign of the dividend: it is [Z.rem], not [Z.modulo]. *)
Definition nextMessage (prev : Z) : Z := Z.rem (prev + 1) LOADING_MESSAGES_length.

(** [messageIndex] after [n] runs of the updater, from [useState(0)]. *)
Definition messageIndexAfter (n : nat) : Z := Nat.iter n nextMessage 0.

End GamifiedLoader.

(* ================================================================== *)
(** ** The local cache of summaries and page translations               *)
(* ================================================================== *)

Module Storage.

(** The digits of a decimal numeral as code units. *)
Fixpoint digits (u : Decimal.uint) : jsstring :=
  match u with
  | Decimal.Nil => []
  | Decimal.D0 u => 48 :: digits u
  | Decimal.D1 u => 49 :: digits u
  | Decimal.D2 u => 50 :: digits u
  | Decimal.D3 u => 51 :: digits u
  | Decimal.D4 u => 52 :: digits u
  | Decimal.D5 u => 53 :: digits u
  | Decimal.D6 u => 54 :: digits u
  | Decimal.D7 u => 55 :: digits u
  | Decimal.D8 u => 56 :: digits u
  | Decimal.D9 u => 57 :: digits u
  end.

(** A number that is an integer, in a template literal: its decimal digits,
    after a minus sign when it is negative (sizes, times and page numbers are
    far below 10^21, where JavaScript would switch to an exponent). *)
Definition numberToString (n : Z) : jsstring :=
  match Z.to_int n with
  | Decimal.Pos u => digits u
  | Decimal.Neg u => 45 :: digits u
  end.

(** The fields of a [File] that the fingerprint reads. *)
Record File := { name : jsstring; size : Z; lastModified : Z }.

(** [`${file.name}_${file.size}_${file.lastModified}`] *)
Definition generateFingerprint (file : File) : jsstring :=
  name file ++ [95] ++ numberToString (size file)
            ++ [95] ++ numberToString (lastModified file).

Definition jsstring_eqb (a b : jsstring) : bool :=
  if list_eq_dec Z.eq_dec a b then true else false.

Section Translations.

(** The type of a page translation; the cache does not look inside. *)
Variable PageTranslation : Type.

(** A value of the object store [translations]. *)
Record TranslationRecord := {
  id : jsstring;
  fingerprint : jsstring;
  pageNumber : Z;
  data : PageTranslation;
  createdAt : Z
}.

(** The object store [translations], with key path [id]. *)
Definition Store := list TranslationRecord.

(** [db.put('translations', record)]: the record takes the place of the one
    stored under its id, if any. *)
Definition put (store : Store) (record : TranslationRecord) : Store :=
  record :: filter (fun r => negb (jsstring_eqb (id r) (id record))) store.

(** [db.get('translations', key)] *)
Definition get (store : Store) (key : jsstring) : option TranslationRecord :=
  find (fun r => jsstring_eqb (id r) key) store.

(** [`${fingerprint}_${pageNumber}`] *)
Definition translationId (fingerprint : jsstring) (pageNumber : Z) : jsstring :=
  fingerprint ++ [95] ++ numberToString pageNumber.

(** [savePageTranslation]; [now] is [Date.now()]. *)
Definition savePageTranslation (fingerprint : jsstring) (pageNumber : Z)
    (data : PageTranslation) (now : Z) (store : Store) : Store :=
  put store {| id := translationId fingerprint pageNumber;
               fingerprint := fingerprint;
               pageNumber := pageNumber;
               data := data;
               createdAt := now |}.

(** [getPageTranslation]: [record ? record.data : null] *)
Definition getPageTranslation (fingerprint : jsstring) (pageNumber : Z)
    (store : Store) : option PageTranslation :=
  match get store (translationId fingerprint pageNumber) with
  | Some record => Some (data record)
  | None => None
  end.

End Translations.

Arguments id {PageTranslation} _.
Arguments data {PageTranslation} _.
Arguments put {PageTranslation} _ _.
Arguments get {PageTranslation} _ _.
Arguments savePageTranslation {PageTranslation} _ _ _ _ _.
Arguments getPageTranslation {PageTranslation} _ _ _.

(** A file whose name has underscores of its own. *)
Definition sample_file : File :=
  {| name := lit "paper_v2_final.pdf"; size := 1048576; lastModified := 1700000000000 |}.

(** A cache that holds page 12 of the sample file; translations are stood
    for by their text. *)
Definition sample_store : Store jsstring :=
  savePageTranslation (generateFingerprint sample_file) 12 (lit "page twelve") 1 [].

End Storage.

(* ================================================================== *)
(** ** The split layout and the page translations of [App]              *)
(* ================================================================== *)

Module Layout.

Local Open Scope float_scope.

(** [leftWidth] (a percentage) and the [isResizing] ref. *)
Record LayoutState := { leftWidth : float; isResizing : bool }.

(** [useState(50)], [useRef(false)] *)
Definition initial : LayoutState := {| leftWidth := 50; isResizing := false |}.

Inductive LayoutEvent : Type :=
| StartResizing                                 (* mouse down on the grip *)
| StopResizing                                  (* mouse up *)
| MouseMove (clientX innerWidth : float)
| ToggleSidebar.                                (* the key t or T *)

Definition step (st : LayoutState) (ev : LayoutEvent) : LayoutState :=
  match ev with
  | StartResizing => {| leftWidth := leftWidth st; isResizing := true |}
  | StopResizing => {| leftWidth := leftWidth st; isResizing := false |}
  | MouseMove clientX innerWidth =>
      if isResizing st then
        let newWidth := (clientX / innerWidth) * 100 in
        if (20 <? newWidth) && (newWidth <? 80)
        then {| leftWidth := newWidth; isResizing := isResizing st |}
        else st
      else st
  | ToggleSidebar =>
      {| leftWidth := if 80 <? leftWidth st then 50 else 100;
         isResizing := isResizing st |}
  end.

Definition run (events : list LayoutEvent) (st : LayoutState) : LayoutState :=
  fold_left step events st.

(** The reading pane fills the window, or the window is split with the pane
    strictly between 20% and 80%. *)
Definition fullOrSplit (w : float) : Prop :=
  w = 100 \/ ((20 <? w) = true /\ (w <? 80) = true).

End Layout.

Module Translate.

Record ContentBlock := { type : jsstring; en : jsstring; cn : jsstring }.

Record GlossaryItem := { term : jsstring; definition : jsstring }.

Record PageTranslation := {
  pageNumber : Z;
  blocks : list ContentBlock;
  glossary : list GlossaryItem
}.

(** A [Map<number, PageTranslation>] by what [get] answers. *)
Definition PageMap := Z -> option PageTranslation.

Definition has (m : PageMap) (k : Z) : bool :=
  match m k with Some _ => true | None => false end.

(** [new Map(prev)] with [set(k, v)] *)
Definition set (m : PageMap) (k : Z) (v : PageTranslation) : PageMap :=
  fun k' => if k' =? k then Some v else m k'.

(** The state of [App] that [processCanvas] writes. *)
Record TranslationState := {
  pageTranslations : PageMap;
  isTranslatingPage : bool;
  prefetchPage : option Z
}.

(** What the render that created [processCanvas] saw of the state. *)
Record Closure := {
  seenTranslations : PageMap;
  debouncedPage : Z;
  seenPrefetchPage : option Z
}.

(** The message of the error block, in UTF-16 code units. *)
Definition errorMessage : jsstring :=
  [39764; 27861; 33021; 37327; 32010; 20081; 65292; 26080; 27861; 35299;
   26512; 21367; 36724; 20869; 23481; 46; 46; 46].

Definition errorBlock : ContentBlock :=
  {| type := lit "paragraph"; en := []; cn := errorMessage |}.

(** [translation.pageNumber = pageNum] *)
Definition withPageNumber (t : PageTranslation) (pageNum : Z) : PageTranslation :=
  {| pageNumber := pageNum; blocks := blocks t; glossary := glossary t |}.

Definition Z_option_eqb (a : Z) (b : option Z) : bool :=
  match b with Some b => a =? b | None => false end.

(** The state updates of [processCanvas] up to its [await]. *)
Definition processCanvas_start (cl : Closure) (pageNum : Z) (st : TranslationState)
  : TranslationState :=
  if pageNum =? debouncedPage cl
  then {| pageTranslations := pageTranslations st;
          isTranslatingPage := true;
          prefetchPage := prefetchPage st |}
  else st.

(** The state updates after the [await]: [translated] is how scaling the
    canvas and [translatePageContent] ended. The updates of the map are
    functional, so they apply to the state of that moment. *)
Definition processCanvas_finish (cl : Closure) (pageNum : Z)
    (translated : Completion PageTranslation) (st : TranslationState)
  : TranslationState :=
  let afterTry :=
    match translated with
    | Normal translation =>
        {| pageTranslations :=
             set (pageTranslations st) pageNum (withPageNumber translation pageNum);
           isTranslatingPage := isTranslatingPage st;
           prefetchPage := if Z_option_eqb pageNum (seenPrefetchPage cl)
                           then None else prefetchPage st |}
    | Throw _ =>
        if pageNum =? debouncedPage cl
        then {| pageTranslations :=
                  set (pageTranslations st) pageNum
                    {| pageNumber := pageNum; blocks := [errorBlock]; glossary := [] |};
                isTranslatingPage := isTranslatingPage st;
                prefetchPage := prefetchPage st |}
        else st
    end in
  (* finally *)
  if pageNum =? debouncedPage cl
  then {| pageTranslations := pageTranslations afterTry;
          isTranslatingPage := false;
          prefetchPage := prefetchPage afterTry |}
  else afterTry.

(** [processCanvas(canvas, pageNum)], from call to completion. *)
Definition processCanvas (cl : Closure) (pageNum : Z)
    (translated : Completion PageTranslation) (st : TranslationState)
  : TranslationState :=
  if has (seenTranslations cl) pageNum then st
  else processCanvas_finish cl pageNum translated (processCanvas_start cl pageNum st).

(** [handleMainPageRendered(canvas, pageNum)] *)
Definition handleMainPageRendered (cl : Closure) (pageNum : Z)
    (translated : Completion PageTranslation) (st : TranslationState)
  : TranslationState :=
  if pageNum =? debouncedPage cl then processCanvas cl pageNum translated st else st.

(** The reader is on page 3; nothing is translated yet. *)
Definition reading_page_3 : Closure :=
  {| seenTranslations := fun _ => None; debouncedPage := 3; seenPrefetchPage := None |}.

Definition nothing_translated : TranslationState :=
  {| pageTranslations := fun _ => None; isTranslatingPage := false; prefetchPage := None |}.

(** A translation of page 3, and the state that holds it. *)
Definition page_3_translation : PageTranslation :=
  {| pageNumber := 3;
     blocks := [ {| type := lit "paragraph"; en := lit "Abstract"; cn := [25688; 35201] |} ];
     glossary := [] |}.

Definition page_3_translated : TranslationState :=
  {| pageTranslations := set (fun _ => None) 3 page_3_translation;
     isTranslatingPage := false;
     prefetchPage := None |}.

End Translate.

(* ================================================================== *)
(** ** Facts about the string methods                                   *)
(* ================================================================== *)

Section StringSearch.

Lemma strlen_nonneg (s : jsstring) : 0 <= strlen s.
Proof. unfold strlen; lia. Qed.

Lemma startsWith_true (q : jsstring) : forall s,
  startsWith s q = true <->
  (length q <= length s)%nat /\ firstn (length q) s = q.
Proof.
  induction q as [|c q IH]; intros s; simpl.
  - split; [intros _; split; [lia | reflexivity] | reflexivity].
  - destruct s as [|d s]; simpl.
    + split; [discriminate | intros [H _]; lia].
    + rewrite andb_true_iff, Z.eqb_eq, IH. split.
      * intros [-> [H1 H2]]. split; [lia | now rewrite H2].
      * intros [H1 H2]. injection H2 as -> H2. repeat split; auto; lia.
Qed.

(** An occurrence at [k], read off the scan's test. *)
Lemma occurs_at_startsWith (s q : jsstring) (k : Z) :
  occurs_at s q k <->
  0 <= k <= strlen s /\ startsWith (skipn (Z.to_nat k) s) q = true.
Proof.
  unfold occurs_at, strlen. rewrite startsWith_true, length_skipn. split.
  - intros (H0 & H1 & H2). repeat split; auto; lia.
  - intros ((H0 & H1) & H2 & H3). repeat split; auto; lia.
Qed.

Lemma indexOf_scan_spec (q : jsstring) : forall s k,
  (indexOf_scan s q k = -1 /\
   forall j, (j <= length s)%nat -> startsWith (skipn j s) q = false) \/
  (exists j, (j <= length s)%nat /\ indexOf_scan s q k = k + Z.of_nat j /\
             startsWith (skipn j s) q = true /\
             forall i, (i < j)%nat -> startsWith (skipn i s) q = false).
Proof.
  induction s as [|a s IH]; intros k; simpl.
  - destruct (startsWith [] q) eqn:E.
    + right. exists 0%nat. simpl. repeat split; auto; try lia.
    + left. split; auto. intros j Hj. now rewrite skipn_nil.
  - destruct (startsWith (a :: s) q) eqn:E.
    + right. exists 0%nat. simpl. repeat split; auto; try lia.
    + destruct (IH (k + 1)) as [[Hr Hno] | (j & Hj & Hr & Hat & Hno)].
      * left. split; auto. intros [|j] Hj; simpl; auto. apply Hno; lia.
      * right. exists (S j). simpl. repeat split; auto; try lia.
        intros [|i] Hi; simpl; auto. apply Hno; lia.
Qed.

(** [indexOf] returns [-1] when the needle does not occur at or after the
    clamped position, and its first occurrence there otherwise. *)
Lemma indexOf_spec (s q : jsstring) (position : Z) :
  let start := Z.min (Z.max position 0) (strlen s) in
  (indexOf s q position = -1 /\
   forall j, start <= j -> ~ occurs_at s q j) \/
  (start <= indexOf s q position /\ occurs_at s q (indexOf s q position) /\
   forall j, start <= j < indexOf s q position -> ~ occurs_at s q j).
Proof.
  intros start. unfold indexOf. fold start.
  assert (Hs : 0 <= start <= strlen s) by (pose proof (strlen_nonneg s); lia).
  assert (Hlen : length (skipn (Z.to_nat start) s)
                 = (length s - Z.to_nat start)%nat) by apply length_skipn.
  destruct (indexOf_scan_spec q (skipn (Z.to_nat start) s) start)
    as [[Hr Hno] | (j & Hj & Hr & Hat & Hno)].
  - left. split; auto. intros k Hk Hocc.
    apply occurs_at_startsWith in Hocc. destruct Hocc as [Hk' Hocc].
    unfold strlen in *.
    specialize (Hno (Z.to_nat k - Z.to_nat start)%nat).
    rewrite skipn_skipn in Hno.
    replace (Z.to_nat k - Z.to_nat start + Z.to_nat start)%nat
      with (Z.to_nat k) in Hno by lia.
    rewrite Hno in Hocc by lia. discriminate.
  - right. rewrite Hr. rewrite skipn_skipn in Hat. unfold strlen in *.
    split; [lia | split].
    + apply occurs_at_startsWith. unfold strlen. split; [lia|].
      replace (Z.to_nat (start + Z.of_nat j)) with (j + Z.to_nat start)%nat by lia.
      exact Hat.
    + intros k Hk Hocc.
      apply occurs_at_startsWith in Hocc. destruct Hocc as [Hk' Hocc].
      specialize (Hno (Z.to_nat k - Z.to_nat start)%nat).
      rewrite skipn_skipn in Hno.
      replace (Z.to_nat k - Z.to_nat start + Z.to_nat start)%nat
        with (Z.to_nat k) in Hno by lia.
      rewrite Hno in Hocc by lia. discriminate.
Qed.

(** The same, for a search that found something. *)
Lemma indexOf_found (s q : jsstring) (position : Z) :
  indexOf s q position <> -1 ->
  Z.min (Z.max position 0) (strlen s) <= indexOf s q position /\
  occurs_at s q (indexOf s q position) /\
  forall j, Z.min (Z.max position 0) (strlen s) <= j < indexOf s q position ->
            ~ occurs_at s q j.
Proof.
  intros Hne. destruct (indexOf_spec s q position) as [[Hr _] | H]; [contradiction | exact H].
Qed.

(** A needle that occurs at or after the position is found. *)
Lemma indexOf_complete (s q : jsstring) (position k : Z) :
  Z.max position 0 <= k -> occurs_at s q k -> indexOf s q position <> -1.
Proof.
  intros Hk Hocc Hr.
  destruct (indexOf_spec s q position) as [[_ Hno] | (Hge & Hocc' & _)].
  - apply (Hno k); [lia | exact Hocc].
  - rewrite Hr in Hocc'. destruct Hocc' as [H0 _]. lia.
Qed.

Lemma indexOf_range (s q : jsstring) (position : Z) :
  indexOf s q position = -1 \/ 0 <= indexOf s q position.
Proof.
  destruct (indexOf_spec s q position) as [[Hr _] | (_ & (H0 & _) & _)]; auto.
Qed.

(** [substring(0, n)] and [substring(length - n)] have [n] code units when
    [n] is within the string. *)
Lemma strlen_substring_head (s : jsstring) (n : Z) :
  0 <= n <= strlen s -> strlen (substring s 0 n) = n.
Proof.
  intros Hn. unfold substring, strlen in *.
  rewrite length_firstn, length_skipn. lia.
Qed.

Lemma strlen_substring_tail (s : jsstring) (n : Z) :
  0 <= n <= strlen s -> strlen (substring_from s (strlen s - n)) = n.
Proof.
  intros Hn. unfold substring_from, substring, strlen in *.
  rewrite length_firstn, length_skipn. lia.
Qed.

End StringSearch.

(* ================================================================== *)
(** ** The character index                                              *)
(* ================================================================== *)

Section CharacterIndex.

Lemma scanText_items (n : nat) (str : jsstring) : forall i st,
  scanText n str i st =
  {| normalizedPdfText := normalizedPdfText st ++ map fst (textItems n str i);
     charMap := charMap st ++ map snd (textItems n str i) |}.
Proof.
  induction str as [|a str IH]; intros i st; simpl.
  - rewrite !app_nil_r. now destruct st.
  - rewrite IH. destruct (isAlphaNumeric a); simpl; [|reflexivity].
    now rewrite <- !app_assoc.
Qed.

Lemma scanNodes_items (textNodes : list Text) : forall n st,
  scanNodes textNodes n st =
  {| normalizedPdfText := normalizedPdfText st ++ map fst (nodesItems textNodes n);
     charMap := charMap st ++ map snd (nodesItems textNodes n) |}.
Proof.
  induction textNodes as [|t ts IH]; intros n st; simpl.
  - rewrite !app_nil_r. now destruct st.
  - rewrite IH, scanText_items. simpl. now rewrite !map_app, !app_assoc.
Qed.

Lemma buildMap_items (textNodes : list Text) :
  normalizedPdfText (buildMap textNodes) = map fst (nodesItems textNodes 0) /\
  charMap (buildMap textNodes) = map snd (nodesItems textNodes 0).
Proof. unfold buildMap. rewrite scanNodes_items. simpl. auto. Qed.

(** The two accumulators have the same length. *)
Lemma charMap_length (textNodes : list Text) :
  length (charMap (buildMap textNodes)) = length (normalizedPdfText (buildMap textNodes)).
Proof.
  destruct (buildMap_items textNodes) as [-> ->]. now rewrite !length_map.
Qed.

Lemma textItems_bounds (n : nat) (str : jsstring) : forall i,
  Forall (fun it => node (snd it) = n /\ (i <= index (snd it))%nat) (textItems n str i).
Proof.
  induction str as [|a str IH]; intros i; simpl; [constructor|].
  apply Forall_app. split.
  - destruct (isAlphaNumeric a); repeat constructor.
  - eapply Forall_impl; [|apply IH]. simpl. intros it [H1 H2]. split; [auto | lia].
Qed.

Lemma nodesItems_bounds (textNodes : list Text) : forall n,
  Forall (fun it => (n <= node (snd it))%nat) (nodesItems textNodes n).
Proof.
  induction textNodes as [|t ts IH]; intros n; simpl; [constructor|].
  apply Forall_app. split.
  - eapply Forall_impl; [|apply textItems_bounds]. simpl. intros it [H _]. lia.
  - eapply Forall_impl; [|apply IH]. simpl. intros it H. lia.
Qed.

Lemma StronglySorted_app {A} (R : A -> A -> Prop) (l1 l2 : list A) :
  StronglySorted R l1 -> StronglySorted R l2 ->
  (forall x y, In x l1 -> In y l2 -> R x y) ->
  StronglySorted R (l1 ++ l2).
Proof.
  induction l1 as [|a l1 IH]; simpl; intros H1 H2 H12; [exact H2|].
  apply StronglySorted_inv in H1. destruct H1 as [H1 Ha].
  constructor.
  - apply IH; auto.
  - apply Forall_app. split; [exact Ha|].
    apply Forall_forall. intros y Hy. apply H12; auto.
Qed.

Lemma StronglySorted_nth {A} (R : A -> A -> Prop) (l : list A) :
  StronglySorted R l ->
  forall i j a b, (i < j)%nat ->
    nth_error l i = Some a -> nth_error l j = Some b -> R a b.
Proof.
  induction 1 as [|x l Hs IH Hx]; intros i j a b Hij Hi Hj.
  - destruct i; discriminate.
  - destruct j as [|j]; [lia|]. simpl in Hj. destruct i as [|i]; simpl in Hi.
    + injection Hi as <-. rewrite Forall_forall in Hx.
      apply Hx. eapply nth_error_In; eauto.
    + apply (IH i j a b); [lia | exact Hi | exact Hj].
Qed.

Lemma textItems_sorted (n : nat) (str : jsstring) : forall i,
  StronglySorted entry_lt (map snd (textItems n str i)).
Proof.
  induction str as [|a str IH]; intros i; simpl; [constructor|].
  rewrite map_app. apply StronglySorted_app; [| apply IH |].
  - destruct (isAlphaNumeric a); simpl; repeat constructor.
  - intros x y Hx Hy. destruct (isAlphaNumeric a); simpl in Hx; [|contradiction].
    destruct Hx as [<- | []]. apply in_map_iff in Hy. destruct Hy as (it & <- & Hit).
    pose proof (textItems_bounds n str (S i)) as Hb. rewrite Forall_forall in Hb.
    destruct (Hb _ Hit) as [Hn Hi]. right. simpl. split; [auto | lia].
Qed.

Lemma nodesItems_sorted (textNodes : list Text) : forall n,
  StronglySorted entry_lt (map snd (nodesItems textNodes n)).
Proof.
  induction textNodes as [|t ts IH]; intros n; simpl; [constructor|].
  rewrite map_app. apply StronglySorted_app; [apply textItems_sorted | apply IH |].
  intros x y Hx Hy.
  apply in_map_iff in Hx. destruct Hx as (ix & <- & Hix).
  apply in_map_iff in Hy. destruct Hy as (iy & <- & Hiy).
  pose proof (textItems_bounds n (textContent t) 0) as Hb. rewrite Forall_forall in Hb.
  pose proof (nodesItems_bounds ts (S n)) as Hc. rewrite Forall_forall in Hc.
  destruct (Hb _ Hix) as [Hn _]. specialize (Hc _ Hiy). left. lia.
Qed.

Lemma textItems_ok (n : nat) (str : jsstring) : forall pre,
  Forall (fun it => node (snd it) = n /\
                    exists c, nth_error (pre ++ str) (index (snd it)) = Some c /\
                              isAlphaNumeric c = true /\ fst it = toLowerCase1 c)
         (textItems n str (length pre)).
Proof.
  induction str as [|a str IH]; intros pre; simpl; [constructor|].
  apply Forall_app. split.
  - destruct (isAlphaNumeric a) eqn:E; repeat constructor. simpl.
    exists a. rewrite nth_error_app2, Nat.sub_diag by lia. auto.
  - specialize (IH (pre ++ [a])). rewrite length_app in IH. simpl in IH.
    rewrite Nat.add_1_r, <- app_assoc in IH. exact IH.
Qed.

Lemma nodesItems_ok (textNodes : list Text) : forall pre,
  Forall (item_ok (pre ++ textNodes)) (nodesItems textNodes (length pre)).
Proof.
  induction textNodes as [|t ts IH]; intros pre; simpl; [constructor|].
  apply Forall_app. split.
  - eapply Forall_impl; [|apply (textItems_ok (length pre) (textContent t) [])].
    simpl. intros it (Hn & c & Hc & Ha & Hl). exists t, c.
    rewrite Hn, nth_error_app2, Nat.sub_diag by lia. auto.
  - specialize (IH (pre ++ [t])). rewrite length_app in IH. simpl in IH.
    rewrite Nat.add_1_r, <- app_assoc in IH. exact IH.
Qed.

(** C7. The character index built by one highlight computation has one entry
    per normalised character, is strictly increasing in fragment-traversal
    order (successive entries, and so any two entries in index order, map to
    strictly increasing (fragment, offset) pairs), and every entry points at a
    fragment of the text layer and at an offset inside that fragment's text,
    namely at the alphanumeric code unit whose lower case is the normalised
    character of the same position. *)
Theorem charMap_strictly_monotonic_and_valid (textNodes : list Text) :
  length (charMap (buildMap textNodes))
    = length (normalizedPdfText (buildMap textNodes)) /\
  (forall i j a b, (i < j)%nat ->
     nth_error (charMap (buildMap textNodes)) i = Some a ->
     nth_error (charMap (buildMap textNodes)) j = Some b ->
     entry_lt a b) /\
  (forall i e,
     nth_error (charMap (buildMap textNodes)) i = Some e ->
     exists t c,
       nth_error textNodes (node e) = Some t /\
       (node e < length textNodes)%nat /\
       nth_error (textContent t) (index e) = Some c /\
       (index e < length (textContent t))%nat /\
       isAlphaNumeric c = true /\
       nth_error (normalizedPdfText (buildMap textNodes)) i = Some (toLowerCase1 c)).
Proof.
  split; [apply charMap_length|].
  destruct (buildMap_items textNodes) as [Ht Hc]. rewrite Ht, Hc. split.
  - apply StronglySorted_nth, nodesItems_sorted.
  - intros i e Hi.
    destruct (nth_error (nodesItems textNodes 0) i) as [it|] eqn:Hit.
    2:{ rewrite nth_error_map, Hit in Hi. discriminate. }
    rewrite nth_error_map, Hit in Hi. injection Hi as <-.
    pose proof (nodesItems_ok textNodes []) as Hok. simpl in Hok.
    rewrite Forall_forall in Hok.
    destruct (Hok it (nth_error_In _ _ Hit)) as (t & c & Hn & Hx & Ha & Hl).
    exists t, c. repeat split; auto.
    + apply nth_error_Some. congruence.
    + apply nth_error_Some. congruence.
    + rewrite nth_error_map, Hit. simpl. now rewrite Hl.
Qed.

(** Entries 12 and 13 of the index of [fox_page] are the last kept character
    of the first fragment and the first kept character of the second. *)
Lemma charMap_strictly_monotonic_and_valid_witness :
  (12 < 13)%nat /\
  nth_error (charMap (buildMap fox_page)) 12 = Some {| node := 0; index := 15 |} /\
  nth_error (charMap (buildMap fox_page)) 13 = Some {| node := 1; index := 1 |} /\
  entry_lt {| node := 0; index := 15 |} {| node := 1; index := 1 |}.
Proof.
  assert (Hlt : (12 < 13)%nat) by lia.
  assert (Ha : nth_error (charMap (buildMap fox_page)) 12
               = Some {| node := 0; index := 15 |}) by (vm_compute; reflexivity).
  assert (Hb : nth_error (charMap (buildMap fox_page)) 13
               = Some {| node := 1; index := 1 |}) by (vm_compute; reflexivity).
  split; [exact Hlt | split; [exact Ha | split; [exact Hb|]]].
  exact (proj1 (proj2 (charMap_strictly_monotonic_and_valid fox_page))
           12%nat 13%nat _ _ Hlt Ha Hb).
Defined.

End CharacterIndex.

(* ================================================================== *)
(** ** The match logic                                                  *)
(* ================================================================== *)

Section Matching.

Lemma ANCHOR_LEN_range (nq : jsstring) : 0 <= ANCHOR_LEN nq <= strlen nq.
Proof.
  unfold ANCHOR_LEN. pose proof (strlen_nonneg nq).
  Z.div_mod_to_equations. lia.
Qed.

Lemma strlen_head (nq : jsstring) : strlen (head nq) = ANCHOR_LEN nq.
Proof. apply strlen_substring_head, ANCHOR_LEN_range. Qed.

Lemma strlen_tail (nq : jsstring) : strlen (tail nq) = ANCHOR_LEN nq.
Proof. apply strlen_substring_tail, ANCHOR_LEN_range. Qed.

(** [d < length * 1.5] on an integer distance. *)
Lemma within_maxDistance (d : Z) (nq : jsstring) :
  Qltb (inject_Z d) (maxDistance nq) = true <-> 2 * d < 3 * strlen nq.
Proof.
  unfold Qltb, maxDistance. rewrite negb_true_iff, <- not_true_iff_false, Qle_bool_iff.
  unfold Qle, Qmult, inject_Z. cbn [Qnum Qden Pos.mul]. lia.
Qed.

Lemma Qlt_maxDistance (d : Z) (nq : jsstring) :
  (inject_Z d < maxDistance nq)%Q <-> 2 * d < 3 * strlen nq.
Proof. unfold maxDistance, Qlt, Qmult, inject_Z. cbn [Qnum Qden Pos.mul]. lia. Qed.

Lemma Qle_maxDistance (d : Z) (nq : jsstring) :
  (inject_Z d <= maxDistance nq)%Q <-> 2 * d <= 3 * strlen nq.
Proof. unfold maxDistance, Qle, Qmult, inject_Z. cbn [Qnum Qden Pos.mul]. lia. Qed.

(** The anchor fallback, once the head anchor is found. *)
Lemma anchorFallback_found (text nq : jsstring) :
  5 < ANCHOR_LEN nq ->
  indexOf text (head nq) 0 <> -1 ->
  anchorFallback text nq =
  if negb (indexOf text (tail nq) (indexOf text (head nq) 0 + ANCHOR_LEN nq) =? -1)
     && Qltb (inject_Z (indexOf text (tail nq) (indexOf text (head nq) 0 + ANCHOR_LEN nq)
                        - indexOf text (head nq) 0))
             (maxDistance nq)
  then (indexOf text (head nq) 0,
        indexOf text (tail nq) (indexOf text (head nq) 0 + ANCHOR_LEN nq)
        + strlen (tail nq) - 1)
  else (-1, -1).
Proof.
  intros HA Hh. unfold anchorFallback.
  apply Z.ltb_lt in HA. rewrite HA.
  apply Z.eqb_neq in Hh. rewrite Hh. reflexivity.
Qed.

Lemma matchLogic_exact (text nq : jsstring) :
  indexOf text nq 0 <> -1 ->
  matchLogic text nq = (indexOf text nq 0, indexOf text nq 0 + strlen nq - 1).
Proof.
  intros H. unfold matchLogic. apply Z.eqb_neq in H. now rewrite H.
Qed.

Lemma matchLogic_fallback (text nq : jsstring) :
  indexOf text nq 0 = -1 -> matchLogic text nq = anchorFallback text nq.
Proof.
  intros H. unfold matchLogic. now rewrite H.
Qed.

(** A span produced by the anchors lies inside the text. *)
Lemma anchorFallback_in_bounds (text nq : jsstring) (s e : Z) :
  anchorFallback text nq = (s, e) -> s <> -1 ->
  0 <= s <= e /\ e < strlen text.
Proof.
  intros H Hs. unfold anchorFallback in H.
  destruct (Z.ltb_spec 5 (ANCHOR_LEN nq)) as [HA|HA];
    [|injection H as <- <-; contradiction].
  destruct (Z.eqb_spec (indexOf text (head nq) 0) (-1)) as [Hh|Hh]; simpl in H;
    [injection H as <- <-; contradiction|].
  destruct (Z.eqb_spec (indexOf text (tail nq)
                          (indexOf text (head nq) 0 + ANCHOR_LEN nq)) (-1))
    as [Ht|Ht]; simpl in H; [injection H as <- <-; contradiction|].
  destruct (Qltb _ _); [|injection H as <- <-; contradiction].
  injection H as <- <-.
  destruct (indexOf_found _ _ _ Hh) as (_ & (Hh0 & Hh1 & _) & _).
  destruct (indexOf_found _ _ _ Ht) as (Hge & (Ht0 & Ht1 & _) & _).
  rewrite strlen_head in Hh1. rewrite strlen_tail in *. lia.
Qed.

(** A span produced by either step lies inside the text. *)
Lemma matchLogic_in_bounds (text nq : jsstring) (s e : Z) :
  matchLogic text nq = (s, e) -> s <> -1 -> e <> -1 ->
  0 <= s <= e /\ e < strlen text.
Proof.
  intros H Hs He.
  destruct (Z.eq_dec (indexOf text nq 0) (-1)) as [Hx|Hx].
  - rewrite matchLogic_fallback in H by exact Hx.
    eapply anchorFallback_in_bounds; eauto.
  - rewrite matchLogic_exact in H by exact Hx. injection H as <- <-.
    destruct (indexOf_found _ _ _ Hx) as (_ & (H0 & H1 & _) & Hmin).
    destruct nq as [|c nq].
    + exfalso. apply He.
      assert (Hz : indexOf text [] 0 = 0).
      { destruct (Z.eq_dec (indexOf text [] 0) 0) as [|Hnz]; auto.
        exfalso. apply (Hmin 0).
        - pose proof (strlen_nonneg text). lia.
        - unfold occurs_at. simpl. pose proof (strlen_nonneg text).
          unfold strlen in *. simpl. repeat split; lia. }
      rewrite Hz. reflexivity.
    + unfold strlen in *. simpl length in *. lia.
Qed.

Lemma array_get_in_range {A} (arr : list A) (i : Z) :
  0 <= i < Z.of_nat (length arr) -> exists x, array_get arr i = Some x.
Proof.
  intros Hi. unfold array_get.
  destruct (Z.ltb_spec i 0); [lia|].
  destruct (nth_error arr (Z.to_nat i)) eqn:E; eauto.
  apply nth_error_None in E. lia.
Qed.

(** C1 (as amended). In the anchor fallback (the exact search failed and the
    anchors are longer than 5), when the head anchor occurs in the normalised
    page text, the span [headIndex, tailIndex + tailLength - 1] is accepted if
    and only if the tail anchor is found at or after the end of the head match
    and the distance between the START of the head match and the START of the
    tail match is strictly less than 1.5 times the normalised query length;
    otherwise no match is produced. [tailIndex] is the first occurrence of the
    tail at or after the end of the head match. *)
Theorem anchor_span_accepted_iff (text nq : jsstring) :
  indexOf text nq 0 = -1 ->
  5 < ANCHOR_LEN nq ->
  headIndex text nq <> -1 ->
  (matchLogic text nq
     = (headIndex text nq, tailIndex text nq + strlen (tail nq) - 1)
   <-> tailIndex text nq <> -1 /\
       (inject_Z (tailIndex text nq - headIndex text nq) < maxDistance nq)%Q) /\
  (~ (tailIndex text nq <> -1 /\
      (inject_Z (tailIndex text nq - headIndex text nq) < maxDistance nq)%Q) ->
   matchLogic text nq = (-1, -1)) /\
  (tailIndex text nq <> -1 ->
   headIndex text nq + ANCHOR_LEN nq <= tailIndex text nq /\
   occurs_at text (tail nq) (tailIndex text nq) /\
   forall j, headIndex text nq + ANCHOR_LEN nq <= j < tailIndex text nq ->
             ~ occurs_at text (tail nq) j).
Proof.
  intros Hx HA Hh. unfold tailIndex in *. unfold headIndex in *.
  rewrite (matchLogic_fallback _ _ Hx), (anchorFallback_found _ _ HA Hh).
  set (h := indexOf text (head nq) 0) in *.
  set (t := indexOf text (tail nq) (h + ANCHOR_LEN nq)).
  assert (Hcond : negb (t =? -1) && Qltb (inject_Z (t - h)) (maxDistance nq) = true
                  <-> t <> -1 /\ (inject_Z (t - h) < maxDistance nq)%Q).
  { rewrite andb_true_iff, negb_true_iff, Z.eqb_neq,
      within_maxDistance, Qlt_maxDistance. tauto. }
  split; [|split].
  - destruct (negb (t =? -1) && Qltb (inject_Z (t - h)) (maxDistance nq)).
    + split; [intros _; now apply Hcond | reflexivity].
    + split; [intros [= E _]; congruence | intros H; apply Hcond in H; discriminate].
  - intros Hn.
    destruct (negb (t =? -1) && Qltb (inject_Z (t - h)) (maxDistance nq));
      [exfalso; now apply Hn, Hcond | reflexivity].
  - intros Ht. destruct (indexOf_found _ _ _ Ht) as (Hge & Hocc & Hmin).
    destruct (indexOf_found _ _ _ Hh) as (_ & (Hh0 & Hh1 & _) & _).
    fold h in Hh0, Hh1. fold t in Hge, Hocc, Hmin. rewrite strlen_head in Hh1.
    split; [lia | split; [exact Hocc|]].
    intros j Hj. apply Hmin. lia.
Qed.

(** The head anchor of [reflow_query] is found at 0 and its tail anchor at 17;
    17 < 18 = 1.5 * 12, so the span (0, 22) is accepted. *)
Lemma anchor_span_accepted_iff_witness :
  indexOf reflow_text reflow_query 0 = -1 /\
  5 < ANCHOR_LEN reflow_query /\
  headIndex reflow_text reflow_query <> -1 /\
  matchLogic reflow_text reflow_query = (0, 22).
Proof.
  assert (Hx : indexOf reflow_text reflow_query 0 = -1) by (vm_compute; reflexivity).
  assert (HA : 5 < ANCHOR_LEN reflow_query) by (vm_compute; reflexivity).
  assert (Hh : headIndex reflow_text reflow_query <> -1) by (vm_compute; discriminate).
  split; [exact Hx | split; [exact HA | split; [exact Hh|]]].
  apply (proj2 (proj1 (anchor_span_accepted_iff reflow_text reflow_query Hx HA Hh))).
  split; [vm_compute; discriminate | apply Qlt_maxDistance; vm_compute; reflexivity].
Defined.

(** C1 (as stated) fails: with the distance measured from the start of the
    head match to the END of the tail match and compared with [<=], the span
    of [reflow_query] would be rejected (22 - 0 > 18, and 23 - 0 > 18 for an
    exclusive end), yet the code accepts it. *)
Lemma anchor_span_tail_end_bound_fails :
  indexOf reflow_text reflow_query 0 = -1 /\
  5 < ANCHOR_LEN reflow_query /\
  headIndex reflow_text reflow_query <> -1 /\
  ~ (matchLogic reflow_text reflow_query
       = (headIndex reflow_text reflow_query,
          tailIndex reflow_text reflow_query + strlen (tail reflow_query) - 1)
     <-> tailIndex reflow_text reflow_query <> -1 /\
         (inject_Z (tailIndex reflow_text reflow_query
                    + strlen (tail reflow_query) - 1
                    - headIndex reflow_text reflow_query)
          <= maxDistance reflow_query)%Q).
Proof.
  repeat split; try (vm_compute; congruence).
  intros [H _].
  assert (Hm : matchLogic reflow_text reflow_query
               = (headIndex reflow_text reflow_query,
                  tailIndex reflow_text reflow_query + strlen (tail reflow_query) - 1))
    by (vm_compute; reflexivity).
  destruct (H Hm) as [_ Hq]. apply Qle_maxDistance in Hq.
  vm_compute in Hq. now apply Hq.
Qed.

(** C5. The anchor fallback is consulted only when the exact search fails: a
    found exact match is the span, whatever the anchors would give. The anchor
    length is min(30, floor(length / 2)) and both anchors have exactly that
    many characters. When the anchor length does not exceed 5 (normalised
    queries shorter than 12) the fallback gives up, and with the exact search
    failed no span is produced. *)
Theorem anchor_fallback_gate (text nq : jsstring) :
  (indexOf text nq 0 <> -1 ->
   matchLogic text nq = (indexOf text nq 0, indexOf text nq 0 + strlen nq - 1)) /\
  (indexOf text nq 0 = -1 -> matchLogic text nq = anchorFallback text nq) /\
  (ANCHOR_LEN nq = Z.min 30 (strlen nq / 2) /\
   strlen (head nq) = Z.min 30 (strlen nq / 2) /\
   strlen (tail nq) = Z.min 30 (strlen nq / 2)) /\
  (ANCHOR_LEN nq <= 5 <-> strlen nq < 12) /\
  (ANCHOR_LEN nq <= 5 -> anchorFallback text nq = (-1, -1)) /\
  (indexOf text nq 0 = -1 -> ANCHOR_LEN nq <= 5 -> matchLogic text nq = (-1, -1)).
Proof.
  assert (Hgive : ANCHOR_LEN nq <= 5 -> anchorFallback text nq = (-1, -1)).
  { intros HA. unfold anchorFallback.
    destruct (Z.ltb_spec 5 (ANCHOR_LEN nq)); [lia | reflexivity]. }
  split; [apply matchLogic_exact|].
  split; [apply matchLogic_fallback|].
  split; [rewrite strlen_head, strlen_tail; auto|].
  split; [unfold ANCHOR_LEN; Z.div_mod_to_equations; lia|].
  split; [exact Hgive|].
  intros Hx HA. rewrite matchLogic_fallback by exact Hx. now apply Hgive.
Qed.

(** An eleven-character query that is not on the page: anchor length 5, no
    fallback, no span; and a query found verbatim. *)
Lemma anchor_fallback_gate_witness :
  (indexOf fox_text (lit "brownfoxxyz") 0 = -1 /\
   ANCHOR_LEN (lit "brownfoxxyz") <= 5 /\
   matchLogic fox_text (lit "brownfoxxyz") = (-1, -1)) /\
  (indexOf fox_text fox_query 0 <> -1 /\
   matchLogic fox_text fox_query = (8, 20)).
Proof.
  assert (Hx : indexOf fox_text (lit "brownfoxxyz") 0 = -1) by (vm_compute; reflexivity).
  assert (HA : ANCHOR_LEN (lit "brownfoxxyz") <= 5) by (vm_compute; discriminate).
  assert (Hf : indexOf fox_text fox_query 0 <> -1) by (vm_compute; discriminate).
  split; (split; [assumption|]).
  - split; [assumption|].
    exact (proj2 (proj2 (proj2 (proj2 (proj2
             (anchor_fallback_gate fox_text (lit "brownfoxxyz")))))) Hx HA).
  - exact (proj1 (anchor_fallback_gate fox_text fox_query) Hf).
Defined.

(** Normalisation only drops characters. *)
Lemma normalizeQuery_length (text : jsstring) :
  strlen (normalizeQuery text) <= strlen text.
Proof.
  unfold normalizeQuery, toLowerCase, strlen. rewrite length_map.
  pose proof (filter_length_le isAlphaNumeric text). lia.
Qed.

(** A produced span resolves through the character index. *)
Lemma span_entries (textNodes : list Text) (nq : jsstring) (startIndex endIndex : Z) :
  matchLogic (normalizedPdfText (buildMap textNodes)) nq = (startIndex, endIndex) ->
  startIndex <> -1 ->
  endIndex <> -1 ->
  0 <= startIndex <= endIndex /\
  endIndex < Z.of_nat (length (charMap (buildMap textNodes))) /\
  exists startNodeData endNodeData,
    array_get (charMap (buildMap textNodes)) startIndex = Some startNodeData /\
    array_get (charMap (buildMap textNodes)) endIndex = Some endNodeData.
Proof.
  intros H Hs He.
  destruct (matchLogic_in_bounds _ _ _ _ H Hs He) as [H1 H2].
  unfold strlen in H2. rewrite <- charMap_length in H2.
  split; [exact H1 | split; [exact H2|]].
  destruct (array_get_in_range (charMap (buildMap textNodes)) startIndex) as [sd Hsd];
    [lia|].
  destruct (array_get_in_range (charMap (buildMap textNodes)) endIndex) as [ed Hed];
    [lia|].
  eauto.
Qed.

(** C10. Whenever either matching step produces a span (neither index is the
    sentinel -1), both indices are in-bounds indices of the character index,
    0 <= startIndex <= endIndex < length, so both lookups of the defensive
    check find an entry. *)
Theorem matched_span_in_charMap (textNodes : list Text) (highlightText : jsstring)
    (startIndex endIndex : Z) :
  matchLogic (normalizedPdfText (buildMap textNodes)) (normalizeQuery highlightText)
    = (startIndex, endIndex) ->
  startIndex <> -1 ->
  endIndex <> -1 ->
  0 <= startIndex <= endIndex /\
  endIndex < Z.of_nat (length (charMap (buildMap textNodes))) /\
  exists startNodeData endNodeData,
    array_get (charMap (buildMap textNodes)) startIndex = Some startNodeData /\
    array_get (charMap (buildMap textNodes)) endIndex = Some endNodeData.
Proof.
  intros H Hs He.
  destruct (matchLogic_in_bounds _ _ _ _ H Hs He) as [Hord Hend].
  assert (Hlen : strlen (normalizedPdfText (buildMap textNodes))
                 = Z.of_nat (length (charMap (buildMap textNodes))))
    by (unfold strlen; now rewrite charMap_length).
  rewrite Hlen in Hend.
  split; [exact Hord | split; [exact Hend|]].
  destruct (array_get_in_range (charMap (buildMap textNodes)) startIndex)
    as [startNodeData Hstart]; [lia|].
  destruct (array_get_in_range (charMap (buildMap textNodes)) endIndex)
    as [endNodeData Hstop]; [lia|].
  exists startNodeData, endNodeData. split; assumption.
Qed.

(** The span 8..20 of [fox_query] on [fox_page]: entry 8 is offset 11 of the
    first fragment, entry 20 is offset 9 of the second. *)
Lemma matched_span_in_charMap_witness :
  matchLogic (normalizedPdfText (buildMap fox_page)) (normalizeQuery fox_query) = (8, 20) /\
  8 <> -1 /\ 20 <> -1 /\
  (0 <= 8 <= 20 /\
   20 < Z.of_nat (length (charMap (buildMap fox_page))) /\
   exists startNodeData endNodeData,
     array_get (charMap (buildMap fox_page)) 8 = Some startNodeData /\
     array_get (charMap (buildMap fox_page)) 20 = Some endNodeData).
Proof.
  assert (H : matchLogic (normalizedPdfText (buildMap fox_page))
                (normalizeQuery fox_query) = (8, 20)) by (vm_compute; reflexivity).
  assert (Hs : 8 <> -1) by discriminate.
  assert (He : 20 <> -1) by discriminate.
  split; [exact H | split; [exact Hs | split; [exact He|]]].
  exact (matched_span_in_charMap fox_page fox_query 8 20 H Hs He).
Defined.

End Matching.

(* ================================================================== *)
(** ** Projection of the range to rectangles                            *)
(* ================================================================== *)

Section Geometry.

Lemma projectRects_cons (r : DOMRect) (rest : list DOMRect) (pageRect : DOMRect) :
  projectRects (r :: rest) pageRect =
  if degenerate r then projectRects rest pageRect
  else if exceeds90 r pageRect then projectRects rest pageRect
  else relativize r pageRect :: projectRects rest pageRect.
Proof. reflexivity. Qed.

(** The loop keeps exactly the rectangles that pass both filters, relativised. *)
Lemma projectRects_In (rects : list DOMRect) (pageRect : DOMRect) (h : HighlightRect) :
  In h (projectRects rects pageRect) <->
  exists r, In r rects /\ degenerate r = false /\ exceeds90 r pageRect = false /\
            h = relativize r pageRect.
Proof.
  induction rects as [|a rects IH].
  - simpl. split; [contradiction | intros (r & [] & _)].
  - rewrite projectRects_cons.
    destruct (degenerate a) eqn:Hd; [|destruct (exceeds90 a pageRect) eqn:He].
    + rewrite IH. split; intros (r & Hr & H); exists r.
      * split; [now right | exact H].
      * destruct Hr as [<- | Hr]; [destruct H as (H & _); congruence | auto].
    + rewrite IH. split; intros (r & Hr & H); exists r.
      * split; [now right | exact H].
      * destruct Hr as [<- | Hr]; [destruct H as (_ & H & _); congruence | auto].
    + simpl. rewrite IH. split.
      * intros [<- | (r & Hr & H)]; [exists a; simpl; auto | exists r; simpl; auto].
      * intros (r & [<- | Hr] & H); [left; symmetry; apply H | right; eauto].
Qed.

Lemma exceeds90_relativize (r pageRect : DOMRect) :
  exceeds90 (relativize r pageRect) pageRect = exceeds90 r pageRect.
Proof. reflexivity. Qed.

Lemma degenerate_relativize (r pageRect : DOMRect) :
  degenerate (relativize r pageRect) = degenerate r.
Proof. reflexivity. Qed.

Lemma projected_rect_filters (rects : list DOMRect) (pageRect : DOMRect) (h : HighlightRect) :
  In h (projectRects rects pageRect) ->
  degenerate h = false /\ exceeds90 h pageRect = false.
Proof.
  intros H. apply projectRects_In in H. destruct H as (r & _ & Hd & He & ->).
  now rewrite degenerate_relativize, exceeds90_relativize.
Qed.

(** The [try] statement in terms of the three range calls. *)
Lemma highlightRange_eq (c : Container) (sd ed : CharMapEntry) :
  highlightRange c sd ed =
  match rangeRects c sd ed with
  | Throw e => Normal (Caught e)
  | Normal rects =>
      match pageRect c with
      | None => Normal Returned
      | Some pr =>
          Normal (SetHighlights (projectRects rects pr)
                    (if 0 <? Z.of_nat (length (projectRects rects pr))
                     then Some (node sd) else None))
      end
  end.
Proof.
  unfold highlightRange, rangeRects, try_catch, bind.
  destruct (range_setStart c (node sd) (index sd)) as [[]|]; [|reflexivity].
  destruct (range_setEnd c (node ed) (index ed + 1)) as [[]|]; [|reflexivity].
  destruct (range_getClientRects c _); [|reflexivity].
  destruct (pageRect c); reflexivity.
Qed.

Lemma highlightRange_normal (c : Container) (sd ed : CharMapEntry) :
  exists o, highlightRange c sd ed = Normal o.
Proof.
  rewrite highlightRange_eq.
  destruct (rangeRects c sd ed); [destruct (pageRect c)|]; eauto.
Qed.

End Geometry.

(* ================================================================== *)
(** ** The computation as a whole                                       *)
(* ================================================================== *)

Section Effect.

(** Past the basic guard the effect is [calculateHighlights]. *)
Lemma guard_passed (p : Props) (text : jsstring) (c : Container) :
  highlightText p = Some text ->
  5 <= strlen text ->
  textLayerReady p = true ->
  pageContainerRef p = Some c ->
  highlightEffect p = calculateHighlights (Some c) text.
Proof.
  intros Ht Hl Hr Hc. unfold highlightEffect. rewrite Ht, Hc, Hr.
  destruct (Z.ltb_spec (strlen text) 5); [lia | reflexivity].
Qed.

(** A computation that reaches the [try] block runs it on the resolved entries. *)
Lemma reachesRange_run (c : Container) (text : jsstring) (sd ed : CharMapEntry) :
  reachesRange c text sd ed ->
  calculateHighlights (Some c) text = highlightRange c sd ed.
Proof.
  intros (textNodes & s & e & Htl & Hne & Hlen & Hm & Hs & He & Hsd & Hed).
  unfold calculateHighlights. rewrite Htl.
  destruct (Z.eqb_spec (Z.of_nat (length textNodes)) 0) as [Hz|_].
  { destruct textNodes; [contradiction | simpl in Hz; lia]. }
  destruct (Z.ltb_spec (strlen (normalizeQuery text)) 5); [lia|].
  rewrite Hm.
  apply Z.eqb_neq in Hs, He. rewrite Hs, He. simpl.
  unfold projectSpan. now rewrite Hsd, Hed.
Qed.

(** The three ways [calculateHighlights] ends. *)
Lemma calculateHighlights_cases (c : Container) (text : jsstring) :
  calculateHighlights (Some c) text = Normal Returned \/
  calculateHighlights (Some c) text = Normal (SetHighlights [] None) \/
  exists sd ed, reachesRange c text sd ed /\
                calculateHighlights (Some c) text = highlightRange c sd ed.
Proof.
  destruct (textLayer c) as [textNodes|] eqn:Htl.
  2:{ left. unfold calculateHighlights. now rewrite Htl. }
  destruct (Z.eqb_spec (Z.of_nat (length textNodes)) 0) as [Hz|Hz].
  { left. unfold calculateHighlights. rewrite Htl.
    apply Z.eqb_eq in Hz. now rewrite Hz. }
  destruct (Z.ltb_spec (strlen (normalizeQuery text)) 5) as [Hl|Hl].
  { left. unfold calculateHighlights. rewrite Htl.
    apply Z.eqb_neq in Hz. apply Z.ltb_lt in Hl. now rewrite Hz, Hl. }
  destruct (matchLogic (normalizedPdfText (buildMap textNodes)) (normalizeQuery text))
    as [s e] eqn:Hm.
  destruct ((s =? -1) || (e =? -1)) eqn:Hse.
  { right. left. unfold calculateHighlights. rewrite Htl.
    apply Z.eqb_neq in Hz. apply Z.ltb_ge in Hl. now rewrite Hz, Hl, Hm, Hse. }
  apply orb_false_iff in Hse. destruct Hse as [Hs He].
  apply Z.eqb_neq in Hs, He.
  destruct (span_entries _ _ _ _ Hm Hs He) as (_ & _ & sd & ed & Hsd & Hed).
  right. right. exists sd, ed.
  assert (Hr : reachesRange c text sd ed).
  { exists textNodes, s, e. repeat split; auto.
    intros ->. simpl in Hz. lia. }
  split; [exact Hr | now apply reachesRange_run].
Qed.

Lemma calculateHighlights_normal (current : option Container) (text : jsstring) :
  exists o, calculateHighlights current text = Normal o.
Proof.
  destruct current as [c|]; [|simpl; eauto].
  destruct (calculateHighlights_cases c text) as [H | [H | (sd & ed & _ & H)]];
    rewrite H; eauto using highlightRange_normal.
Qed.

Lemma highlightEffect_normal (p : Props) : exists o, highlightEffect p = Normal o.
Proof.
  unfold highlightEffect.
  destruct (highlightText p) as [text|]; [|eauto].
  destruct (pageContainerRef p) as [c|]; [|eauto].
  destruct ((strlen text <? 5) || negb (textLayerReady p)); [eauto|].
  apply calculateHighlights_normal.
Qed.

(** Whatever [calculateHighlights] passes to [setHighlights] is empty or the
    projection of the range's rectangles against the page box. *)
Lemma calculateHighlights_written (c : Container) (text : jsstring)
    (hs : list HighlightRect) (scroll : option nat) :
  calculateHighlights (Some c) text = Normal (SetHighlights hs scroll) ->
  hs = [] \/ exists rects pr, pageRect c = Some pr /\ hs = projectRects rects pr.
Proof.
  intros H.
  destruct (calculateHighlights_cases c text) as [E | [E | (sd & ed & _ & E)]];
    rewrite E in H.
  - discriminate.
  - injection H as <- _. now left.
  - rewrite highlightRange_eq in H.
    destruct (rangeRects c sd ed) as [rects|]; [|discriminate].
    destruct (pageRect c) as [pr|]; [|discriminate].
    injection H as <- _. right. eauto.
Qed.

(** The guard clears the highlights of a missing or short query. *)
Lemma short_query_clears (p : Props) (prev : list HighlightRect) :
  (highlightText p = None \/
   exists text, highlightText p = Some text /\ strlen text < 5) ->
  highlightEffect p = Normal (SetHighlights [] None) /\ runEffect p prev = Normal [].
Proof.
  intros H.
  assert (E : highlightEffect p = Normal (SetHighlights [] None)).
  { unfold highlightEffect. destruct H as [-> | (text & -> & Hl)]; [reflexivity|].
    destruct (pageContainerRef p); [|reflexivity].
    apply Z.ltb_lt in Hl. now rewrite Hl. }
  split; [exact E|]. unfold runEffect. now rewrite E.
Qed.

(** C2 (as amended). A rectangle whose width is strictly greater than
    [pageRect.width * 0.9] and whose height is strictly greater than
    [pageRect.height * 0.9] (binary64 products and comparisons, as the code
    computes them) is excluded from the returned list, even though the text
    span matched; no returned rectangle exceeds both bounds, neither in the
    loop's output nor in what a computation passes to [setHighlights]. *)
Theorem page_filling_rects_excluded (rects : list DOMRect) (pageRect : DOMRect) :
  (forall r, In r rects -> exceeds90 r pageRect = true ->
             ~ In (relativize r pageRect) (projectRects rects pageRect)) /\
  (forall h, In h (projectRects rects pageRect) -> exceeds90 h pageRect = false) /\
  (forall c text hs scroll,
     PDFViewer.pageRect c = Some pageRect ->
     calculateHighlights (Some c) text = Normal (SetHighlights hs scroll) ->
     forall h, In h hs -> exceeds90 h pageRect = false).
Proof.
  split; [|split].
  - intros r _ He Hin. apply projected_rect_filters in Hin.
    rewrite exceeds90_relativize in Hin. destruct Hin as [_ Hin]. congruence.
  - intros h Hin. now apply projected_rect_filters in Hin.
  - intros c text hs scroll Hp H h Hin.
    apply calculateHighlights_written in H.
    destruct H as [-> | (rects' & pr & Hpr & ->)]; [contradiction|].
    rewrite Hp in Hpr. injection Hpr as <-.
    now apply projected_rect_filters in Hin.
Qed.

(** A rectangle of 91 x 91 on the 100 x 100 page is dropped, one of 90 x 90
    next to it is not. *)
Lemma page_filling_rects_excluded_witness :
  In ninety_one_rect [ninety_one_rect; ninety_rect] /\
  exceeds90 ninety_one_rect square_page = true /\
  ~ In (relativize ninety_one_rect square_page)
       (projectRects [ninety_one_rect; ninety_rect] square_page).
Proof.
  assert (Hin : In ninety_one_rect [ninety_one_rect; ninety_rect])
    by (left; reflexivity).
  assert (He : exceeds90 ninety_one_rect square_page = true)
    by (vm_compute; reflexivity).
  split; [exact Hin | split; [exact He|]].
  exact (proj1 (page_filling_rects_excluded [ninety_one_rect; ninety_rect] square_page)
           ninety_one_rect Hin He).
Defined.

(** C2 (as stated) fails at the boundary: the 90 x 90 rectangle covers at least
    90% of both dimensions of the 100 x 100 page ([100 * 0.9] is [90] in
    binary64, and 90 * 10 = 100 * 9 exactly), yet the computation returns it. *)
Lemma ninety_percent_rect_is_kept :
  In ninety_rect [ninety_rect] /\
  covers90 ninety_rect square_page = true /\
  In (relativize ninety_rect square_page) (projectRects [ninety_rect] square_page) /\
  calculateHighlights (Some ninety_container) fox_query
    = Normal (SetHighlights [relativize ninety_rect square_page] (Some 0%nat)).
Proof.
  split; [left; reflexivity|].
  split; [vm_compute; reflexivity|].
  split; [left; vm_compute; reflexivity | vm_compute; reflexivity].
Qed.

(** C3 (the code at the failing input). The query [(1) - (2)] has nine
    characters, so it passes the basic guard, and two after normalisation, so
    [calculateHighlights] returns at its length check without calling
    [setHighlights]: the highlights of the earlier query stay on screen,
    where the guard on the raw length ([short_query_clears]) and the no-match
    path both clear them. *)
Theorem normalized_short_query_keeps_stale_highlights :
  strlen list_marker_query = 9 /\
  strlen (normalizeQuery list_marker_query) = 2 /\
  highlightEffect (props_of fox_container list_marker_query) = Normal Returned /\
  runEffect (props_of fox_container list_marker_query) stale_highlights
    = Normal stale_highlights /\
  stale_highlights <> [].
Proof.
  repeat split; try (vm_compute; reflexivity). discriminate.
Qed.



(** C6. No run of the effect ends in an exception, and an exception raised by
    range construction or rectangle extraction ([setStart], [setEnd],
    [getClientRects]) is caught inside the computation: it is logged, the
    highlights are cleared to the empty list, and the effect completes
    normally. *)
Theorem range_exceptions_are_caught (p : Props) (prev : list HighlightRect) :
  (exists o, highlightEffect p = Normal o) /\
  (exists hs, runEffect p prev = Normal hs) /\
  (forall c sd ed ex,
     rangeRects c sd ed = Throw ex ->
     highlightRange c sd ed = Normal (Caught ex)) /\
  (forall text c sd ed ex,
     highlightText p = Some text -> 5 <= strlen text ->
     textLayerReady p = true -> pageContainerRef p = Some c ->
     reachesRange c text sd ed ->
     rangeRects c sd ed = Throw ex ->
     highlightEffect p = Normal (Caught ex) /\ runEffect p prev = Normal []).
Proof.
  destruct (highlightEffect_normal p) as [o Ho].
  split; [eauto|]. split; [unfold runEffect; rewrite Ho; simpl; eauto|].
  split.
  - intros c sd ed ex Hthrow. now rewrite highlightRange_eq, Hthrow.
  - intros text c sd ed ex Ht Hl Hr Hc Hreach Hthrow.
    assert (E : highlightEffect p = Normal (Caught ex)).
    { rewrite (guard_passed p text c Ht Hl Hr Hc), (reachesRange_run _ _ _ _ Hreach).
      now rewrite highlightRange_eq, Hthrow. }
    split; [exact E|]. unfold runEffect. now rewrite E.
Qed.

(** On the page whose fragments are being replaced, [setEnd] throws; the
    highlights of the earlier query are cleared. *)
Lemma range_exceptions_are_caught_witness :
  reachesRange detached_container fox_query
    {| node := 0; index := 11 |} {| node := 1; index := 9 |} /\
  rangeRects detached_container {| node := 0; index := 11 |} {| node := 1; index := 9 |}
    = Throw InvalidNodeTypeError /\
  highlightEffect (props_of detached_container fox_query)
    = Normal (Caught InvalidNodeTypeError) /\
  runEffect (props_of detached_container fox_query) stale_highlights = Normal [].
Proof.
  assert (Hreach : reachesRange detached_container fox_query
                     {| node := 0; index := 11 |} {| node := 1; index := 9 |}).
  { exists fox_page, 8, 20.
    repeat split; try (vm_compute; reflexivity); try discriminate. }
  assert (Hthrow : rangeRects detached_container
                     {| node := 0; index := 11 |} {| node := 1; index := 9 |}
                   = Throw InvalidNodeTypeError) by reflexivity.
  split; [exact Hreach | split; [exact Hthrow|]].
  assert (Hl : 5 <= strlen fox_query) by (vm_compute; discriminate).
  exact (proj2 (proj2 (proj2 (range_exceptions_are_caught
           (props_of detached_container fox_query) stale_highlights)))
         fox_query detached_container {| node := 0; index := 11 |}
         {| node := 1; index := 9 |} InvalidNodeTypeError
         eq_refl Hl eq_refl eq_refl Hreach Hthrow).
Defined.







(** C9. Past the basic guard (a raw query of at least 5 characters, the text
    layer ready, the container mounted), the computation returns without
    calling [setHighlights], and so leaves the rectangles of the previous
    computation as they were, when the normalised query is shorter than 5,
    when the text layer element or its text nodes are missing, and when the
    [try] block is reached and the range calls succeed but the page has no
    bounding box. The same holds of the defensive check on the index lookups:
    the projection step returns without writing when either lookup fails. *)
Theorem silent_returns_keep_previous (p : Props) (text : jsstring) (c : Container)
    (prev : list HighlightRect) :
  highlightText p = Some text ->
  5 <= strlen text ->
  textLayerReady p = true ->
  pageContainerRef p = Some c ->
  ((strlen (normalizeQuery text) < 5 \/
    textLayer c = None \/
    textLayer c = Some [] \/
    (exists sd ed rects,
       reachesRange c text sd ed /\
       rangeRects c sd ed = Normal rects /\
       pageRect c = None)) ->
   highlightEffect p = Normal Returned /\ runEffect p prev = Normal prev) /\
  (forall charMap startIndex endIndex,
     array_get charMap startIndex = None \/ array_get charMap endIndex = None ->
     projectSpan c charMap startIndex endIndex = Normal Returned).
Proof.
  intros Ht Hl Hr Hc. split.
  - intros H.
    assert (E : highlightEffect p = Normal Returned).
    { rewrite (guard_passed p text c Ht Hl Hr Hc).
      destruct H as [H | [H | [H | (sd & ed & rects & Hreach & Hrects & Hpr)]]].
      - unfold calculateHighlights.
        destruct (textLayer c) as [textNodes|]; [|reflexivity].
        destruct (Z.of_nat (length textNodes) =? 0); [reflexivity|].
        apply Z.ltb_lt in H. now rewrite H.
      - unfold calculateHighlights. now rewrite H.
      - unfold calculateHighlights. now rewrite H.
      - now rewrite (reachesRange_run _ _ _ _ Hreach), highlightRange_eq, Hrects, Hpr. }
    split; [exact E|]. unfold runEffect. now rewrite E.
  - intros cm s e H. unfold projectSpan.
    destruct H as [-> | H]; [reflexivity|].
    rewrite H. now destruct (array_get cm s).
Qed.

(** The list-marker query on the rendered page, and the fox query on the page
    that has lost its page element, each with the highlights of an earlier
    query on screen: they stay. *)
Lemma silent_returns_keep_previous_witness :
  (5 <= strlen list_marker_query /\
   strlen (normalizeQuery list_marker_query) < 5 /\
   highlightEffect (props_of fox_container list_marker_query) = Normal Returned /\
   runEffect (props_of fox_container list_marker_query) stale_highlights
     = Normal stale_highlights) /\
  (5 <= strlen fox_query /\
   reachesRange boxless_container fox_query
     {| node := 0; index := 11 |} {| node := 1; index := 9 |} /\
   rangeRects boxless_container {| node := 0; index := 11 |} {| node := 1; index := 9 |}
     = Normal fox_rects /\
   pageRect boxless_container = None /\
   highlightEffect (props_of boxless_container fox_query) = Normal Returned /\
   runEffect (props_of boxless_container fox_query) stale_highlights
     = Normal stale_highlights).
Proof.
  assert (Hl : 5 <= strlen list_marker_query) by (vm_compute; discriminate).
  assert (Hn : strlen (normalizeQuery list_marker_query) < 5) by (vm_compute; reflexivity).
  assert (Hf : 5 <= strlen fox_query) by (vm_compute; discriminate).
  assert (Hreach : reachesRange boxless_container fox_query
                     {| node := 0; index := 11 |} {| node := 1; index := 9 |}).
  { exists fox_page, 8, 20.
    repeat split; try (vm_compute; reflexivity); try discriminate. }
  split.
  - split; [exact Hl | split; [exact Hn|]].
    exact (proj1 (silent_returns_keep_previous
                    (props_of fox_container list_marker_query) list_marker_query
                    fox_container stale_highlights eq_refl Hl eq_refl eq_refl)
                 (or_introl Hn)).
  - split; [exact Hf | split; [exact Hreach | split; [reflexivity | split; [reflexivity|]]]].
    apply (proj1 (silent_returns_keep_previous
                    (props_of boxless_container fox_query) fox_query
                    boxless_container stale_highlights eq_refl Hf eq_refl eq_refl)).
    right. right. right.
    exists {| node := 0; index := 11 |}, {| node := 1; index := 9 |}, fox_rects.
    split; [exact Hreach | split; reflexivity].
Defined.

End Effect.

(* ================================================================== *)
(** ** Further properties of the highlight computation                  *)
(* ================================================================== *)

Section Located.

Lemma normalizeQuery_app (a b : jsstring) :
  normalizeQuery (a ++ b) = normalizeQuery a ++ normalizeQuery b.
Proof. unfold normalizeQuery, toLowerCase. now rewrite filter_app, map_app. Qed.

Lemma textItems_normalized (n : nat) (str : jsstring) : forall i,
  map fst (textItems n str i) = normalizeQuery str.
Proof.
  induction str as [|a str IH]; intros i; [reflexivity|].
  simpl textItems. rewrite map_app, IH.
  change (a :: str) with ([a] ++ str). rewrite normalizeQuery_app.
  f_equal. unfold normalizeQuery, toLowerCase. simpl.
  now destruct (isAlphaNumeric a).
Qed.

Lemma nodesItems_normalized (textNodes : list Text) : forall n,
  map fst (nodesItems textNodes n) = normalizeQuery (pageText textNodes).
Proof.
  induction textNodes as [|t ts IH]; intros n; [reflexivity|].
  unfold pageText in *. simpl.
  now rewrite map_app, normalizeQuery_app, textItems_normalized, IH.
Qed.

(** X1. The page and the query are normalised by the same function: the
    normalised page text that the two loops accumulate is the normalisation,
    as the query gets it, of the fragments' text put end to end. *)
Theorem page_normalized_like_query (textNodes : list Text) :
  normalizedPdfText (buildMap textNodes) = normalizeQuery (pageText textNodes).
Proof.
  destruct (buildMap_items textNodes) as [-> _]. apply nodesItems_normalized.
Qed.

(** An occurrence in the middle of a concatenation. *)
Lemma occurs_at_app (a q b : jsstring) : occurs_at (a ++ q ++ b) q (strlen a).
Proof.
  unfold occurs_at, strlen. rewrite Nat2Z.id, !length_app.
  split; [lia | split; [lia|]].
  rewrite skipn_app, skipn_all, Nat.sub_diag. simpl.
  rewrite firstn_app, firstn_all, Nat.sub_diag. simpl. apply app_nil_r.
Qed.

(** X2. Text taken from the page is always found by the exact step: when the
    page text, read across its fragments, contains a stretch [q], any query
    that normalises like [q] (the same letters and digits, whatever the case,
    spacing and punctuation) and keeps at least 5 characters gets the exact
    span of its length, at or before the place of that stretch. *)
Theorem page_stretch_matches_exactly (textNodes : list Text)
    (pre q post query : jsstring) :
  pageText textNodes = pre ++ q ++ post ->
  normalizeQuery query = normalizeQuery q ->
  5 <= strlen (normalizeQuery query) ->
  exists startIndex,
    matchLogic (normalizedPdfText (buildMap textNodes)) (normalizeQuery query)
      = (startIndex, startIndex + strlen (normalizeQuery query) - 1) /\
    0 <= startIndex <= strlen (normalizeQuery pre) /\
    occurs_at (normalizedPdfText (buildMap textNodes)) (normalizeQuery query)
      (strlen (normalizeQuery pre)).
Proof.
  intros Hpage Hq Hlen.
  assert (Hocc : occurs_at (normalizedPdfText (buildMap textNodes))
                   (normalizeQuery query) (strlen (normalizeQuery pre))).
  { destruct (buildMap_items textNodes) as [-> _].
    rewrite nodesItems_normalized, Hpage, !normalizeQuery_app, Hq.
    apply occurs_at_app. }
  set (nt := normalizedPdfText (buildMap textNodes)) in *.
  set (nq := normalizeQuery query) in *.
  set (k := strlen (normalizeQuery pre)) in *.
  assert (Hk : 0 <= k) by apply strlen_nonneg.
  assert (Hx : indexOf nt nq 0 <> -1)
    by (apply (indexOf_complete nt nq 0 k); [lia | exact Hocc]).
  destruct (indexOf_found _ _ _ Hx) as (_ & (Hs0 & _) & Hmin).
  exists (indexOf nt nq 0). split; [now apply matchLogic_exact | split; [|exact Hocc]].
  split; [exact Hs0|].
  destruct (Z_le_gt_dec (indexOf nt nq 0) k) as [|Hgt]; [assumption|].
  exfalso. apply (Hmin k); [|exact Hocc].
  pose proof (strlen_nonneg nt). lia.
Qed.

(** The words "brown fox jumps" run over both fragments of [fox_page]; quoted
    back with other capitals and punctuation they match at 8..20. *)
Lemma page_stretch_matches_exactly_witness :
  pageText fox_page = lit "The quick, " ++ fox_stretch ++ lit " over the lazy dog." /\
  normalizeQuery fox_quoted = normalizeQuery fox_stretch /\
  5 <= strlen (normalizeQuery fox_quoted) /\
  exists startIndex,
    matchLogic (normalizedPdfText (buildMap fox_page)) (normalizeQuery fox_quoted)
      = (startIndex, startIndex + strlen (normalizeQuery fox_quoted) - 1) /\
    0 <= startIndex <= 8.
Proof.
  assert (Hpage : pageText fox_page
                  = lit "The quick, " ++ fox_stretch ++ lit " over the lazy dog.")
    by (vm_compute; reflexivity).
  assert (Hq : normalizeQuery fox_quoted = normalizeQuery fox_stretch)
    by (vm_compute; reflexivity).
  assert (Hlen : 5 <= strlen (normalizeQuery fox_quoted)) by (vm_compute; discriminate).
  split; [exact Hpage | split; [exact Hq | split; [exact Hlen|]]].
  destruct (page_stretch_matches_exactly fox_page _ _ _ fox_quoted Hpage Hq Hlen)
    as (s & Hm & Hs & _).
  exists s. split; [exact Hm | exact Hs].
Defined.

(** The anchors are the first and the last [ANCHOR_LEN] characters. *)
Lemma head_firstn (nq : jsstring) : head nq = firstn (Z.to_nat (ANCHOR_LEN nq)) nq.
Proof.
  pose proof (ANCHOR_LEN_range nq) as H.
  unfold head, substring. fold (strlen nq).
  replace (Z.min (Z.max 0 0) (strlen nq)) with 0 by lia.
  replace (Z.min (Z.max (ANCHOR_LEN nq) 0) (strlen nq)) with (ANCHOR_LEN nq) by lia.
  replace (Z.min 0 (ANCHOR_LEN nq)) with 0 by lia.
  replace (Z.max 0 (ANCHOR_LEN nq) - 0) with (ANCHOR_LEN nq) by lia.
  reflexivity.
Qed.

Lemma tail_skipn (nq : jsstring) :
  tail nq = skipn (Z.to_nat (strlen nq - ANCHOR_LEN nq)) nq.
Proof.
  pose proof (ANCHOR_LEN_range nq) as H.
  unfold tail, substring_from, substring. fold (strlen nq).
  replace (Z.min (Z.max (strlen nq - ANCHOR_LEN nq) 0) (strlen nq))
    with (strlen nq - ANCHOR_LEN nq) by lia.
  replace (Z.min (Z.max (strlen nq) 0) (strlen nq)) with (strlen nq) by lia.
  replace (Z.min (strlen nq - ANCHOR_LEN nq) (strlen nq))
    with (strlen nq - ANCHOR_LEN nq) by lia.
  apply firstn_all2. rewrite length_skipn. unfold strlen in *. lia.
Qed.

(** The characters of an occurrence. *)
Lemma occurs_at_nth (s q : jsstring) (k : Z) :
  occurs_at s q k ->
  forall i, (i < length q)%nat -> nth_error s (Z.to_nat k + i) = nth_error q i.
Proof.
  intros (_ & _ & H) i Hi. rewrite <- H at 1.
  rewrite nth_error_firstn, nth_error_skipn.
  destruct (Nat.ltb_spec i (length q)); [reflexivity | lia].
Qed.

(** An occurrence of a string is one of each of its prefixes. *)
Lemma occurs_at_prefix (s q : jsstring) (k : Z) (n : nat) :
  occurs_at s q k -> occurs_at s (firstn n q) k.
Proof.
  intros (H0 & H1 & H2). unfold occurs_at, strlen in *.
  rewrite length_firstn. split; [exact H0 | split; [lia|]].
  rewrite <- H2 at 2. now rewrite firstn_firstn.
Qed.

(** How a produced span came about: the exact step, or both anchors. *)
Lemma matchLogic_produced (text nq : jsstring) (s e : Z) :
  matchLogic text nq = (s, e) -> s <> -1 -> e <> -1 ->
  (indexOf text nq 0 <> -1 /\ s = indexOf text nq 0 /\ e = s + strlen nq - 1 /\
   1 <= strlen nq /\ occurs_at text nq s) \/
  (indexOf text nq 0 = -1 /\ 5 < ANCHOR_LEN nq /\
   s = headIndex text nq /\ e = tailIndex text nq + ANCHOR_LEN nq - 1 /\
   s + ANCHOR_LEN nq <= tailIndex text nq /\
   2 * (tailIndex text nq - s) < 3 * strlen nq /\
   occurs_at text (head nq) s /\ occurs_at text (tail nq) (tailIndex text nq)).
Proof.
  intros H Hs He.
  destruct (matchLogic_in_bounds _ _ _ _ H Hs He) as [Hord _].
  destruct (Z.eq_dec (indexOf text nq 0) (-1)) as [Hx|Hx].
  - right. rewrite (matchLogic_fallback _ _ Hx) in H.
    destruct (Z.ltb_spec 5 (ANCHOR_LEN nq)) as [HA|HA].
    2:{ unfold anchorFallback in H. apply Z.ltb_ge in HA. rewrite HA in H.
        injection H as <- <-. contradiction. }
    destruct (Z.eq_dec (indexOf text (head nq) 0) (-1)) as [Hh|Hh].
    { unfold anchorFallback in H. apply Z.ltb_lt in HA. rewrite HA, Hh in H.
      simpl in H. injection H as <- <-. contradiction. }
    rewrite (anchorFallback_found _ _ HA Hh) in H.
    fold (headIndex text nq) in H, Hh. fold (tailIndex text nq) in H.
    destruct (negb (tailIndex text nq =? -1)
              && Qltb (inject_Z (tailIndex text nq - headIndex text nq)) (maxDistance nq))
      eqn:Hacc; [|injection H as <- <-; contradiction].
    injection H as <- <-.
    apply andb_true_iff in Hacc. destruct Hacc as [Ht Hd].
    apply negb_true_iff, Z.eqb_neq in Ht. apply within_maxDistance in Hd.
    destruct (indexOf_found _ _ _ Hh) as (_ & Hocc & _).
    destruct (indexOf_found _ _ _ Ht) as (Hge & Hocct & _).
    fold (headIndex text nq) in Hocc. fold (tailIndex text nq) in Hge, Hocct.
    pose proof Hocc as (Hh0 & Hh1 & _). rewrite strlen_head in Hh1.
    rewrite strlen_tail.
    split; [exact Hx | split; [exact HA | split; [reflexivity | split; [reflexivity|]]]].
    split; [lia | split; [lia | split; [exact Hocc | exact Hocct]]].
  - left. rewrite (matchLogic_exact _ _ Hx) in H. injection H as <- <-.
    destruct (indexOf_found _ _ _ Hx) as (_ & Hocc & _).
    split; [exact Hx | split; [reflexivity | split; [reflexivity | split; [lia | exact Hocc]]]].
Qed.

(** X3. The highlighted stretch is never longer than the tolerance allows: a
    produced span has at least one and fewer than twice as many characters as
    the normalised query. It has exactly as many when the exact step found it;
    when the anchors did, it has at least the two anchors' and fewer than one
    and a half query lengths plus one anchor's. *)
Theorem span_width_bounds (text nq : jsstring) (startIndex endIndex : Z) :
  matchLogic text nq = (startIndex, endIndex) ->
  startIndex <> -1 ->
  endIndex <> -1 ->
  1 <= endIndex - startIndex + 1 < 2 * strlen nq /\
  (endIndex - startIndex + 1 = strlen nq \/
   (indexOf text nq 0 = -1 /\
    2 * ANCHOR_LEN nq <= endIndex - startIndex + 1 /\
    2 * (endIndex - startIndex + 1) < 3 * strlen nq + 2 * ANCHOR_LEN nq)).
Proof.
  intros H Hs He. pose proof (ANCHOR_LEN_range nq) as HA.
  assert (HA2 : 2 * ANCHOR_LEN nq <= strlen nq)
    by (unfold ANCHOR_LEN; Z.div_mod_to_equations; lia).
  destruct (matchLogic_produced _ _ _ _ H Hs He)
    as [(_ & _ & -> & Hl & _) | (Hx & H5 & _ & -> & Hge & Hd & _)].
  - split; [lia | left; lia].
  - split; [lia | right; repeat split; auto; lia].
Qed.

(** The reflowed page: the anchors sit 17 apart, the span has 23 characters,
    fewer than 24. *)
Lemma span_width_bounds_witness :
  matchLogic reflow_text reflow_query = (0, 22) /\
  0 <> -1 /\ 22 <> -1 /\
  1 <= 22 - 0 + 1 < 2 * strlen reflow_query.
Proof.
  assert (H : matchLogic reflow_text reflow_query = (0, 22)) by (vm_compute; reflexivity).
  assert (Hs : 0 <> -1) by discriminate.
  assert (He : 22 <> -1) by discriminate.
  split; [exact H | split; [exact Hs | split; [exact He|]]].
  exact (proj1 (span_width_bounds reflow_text reflow_query 0 22 H Hs He)).
Defined.

(** The first and the last character of a produced span are the first and the
    last character of the normalised query. *)
Lemma matchLogic_ends (text nq : jsstring) (s e : Z) :
  matchLogic text nq = (s, e) -> s <> -1 -> e <> -1 ->
  (0 < length nq)%nat /\
  nth_error text (Z.to_nat s) = nth_error nq 0 /\
  nth_error text (Z.to_nat e) = nth_error nq (length nq - 1).
Proof.
  intros H Hs He.
  destruct (matchLogic_in_bounds _ _ _ _ H Hs He) as [Hord _].
  pose proof (ANCHOR_LEN_range nq) as HA.
  destruct (matchLogic_produced _ _ _ _ H Hs He)
    as [(_ & _ & -> & Hl & Hocc) | (_ & H5 & _ & -> & Hge & _ & Hocch & Hocct)];
    unfold strlen in *.
  - split; [lia|]. split.
    + rewrite <- (occurs_at_nth _ _ _ Hocc 0%nat) by lia. f_equal. lia.
    + rewrite <- (occurs_at_nth _ _ _ Hocc (length nq - 1)%nat) by lia. f_equal. lia.
  - pose proof (strlen_head nq) as Hlh. pose proof (strlen_tail nq) as Hlt.
    unfold strlen in Hlh, Hlt.
    split; [lia|]. split.
    + rewrite <- (Nat.add_0_r (Z.to_nat s)), (occurs_at_nth _ _ _ Hocch 0%nat) by lia.
      rewrite head_firstn, nth_error_firstn.
      destruct (Nat.ltb_spec 0 (Z.to_nat (ANCHOR_LEN nq))); [reflexivity | lia].
    + pose proof Hocct as (Ht0 & _).
      replace (Z.to_nat (tailIndex text nq + ANCHOR_LEN nq - 1))
        with (Z.to_nat (tailIndex text nq) + (Z.to_nat (ANCHOR_LEN nq) - 1))%nat by lia.
      rewrite (occurs_at_nth _ _ _ Hocct) by lia.
      rewrite tail_skipn, nth_error_skipn. f_equal. unfold strlen. lia.
Qed.

(** The index is sorted, and its entries point into the page. *)
Lemma charMap_sorted (textNodes : list Text) :
  StronglySorted entry_lt (charMap (buildMap textNodes)).
Proof.
  destruct (buildMap_items textNodes) as [_ ->]. apply nodesItems_sorted.
Qed.

Lemma charMap_entry_points_at (textNodes : list Text) (i : nat) (e : CharMapEntry) :
  nth_error (charMap (buildMap textNodes)) i = Some e ->
  exists t c,
    nth_error textNodes (node e) = Some t /\
    nth_error (textContent t) (index e) = Some c /\
    isAlphaNumeric c = true /\
    nth_error (normalizedPdfText (buildMap textNodes)) i = Some (toLowerCase1 c).
Proof.
  destruct (buildMap_items textNodes) as [-> ->]. intros Hi.
  rewrite nth_error_map in Hi. rewrite nth_error_map.
  destruct (nth_error (nodesItems textNodes 0) i) as [it|] eqn:Hit; [|discriminate].
  injection Hi as <-.
  pose proof (nodesItems_ok textNodes []) as Hok. simpl in Hok.
  rewrite Forall_forall in Hok.
  destruct (Hok it (nth_error_In _ _ Hit)) as (t & c & Hn & Hx & Ha & Hl).
  exists t, c. simpl. rewrite Hl. auto.
Qed.

Lemma array_get_nth {A} (arr : list A) (i : Z) (x : A) :
  array_get arr i = Some x -> 0 <= i /\ nth_error arr (Z.to_nat i) = Some x.
Proof.
  unfold array_get. destruct (Z.ltb_spec i 0); [discriminate | auto].
Qed.

(** X4. The range handed to the DOM is always well formed. Whenever the
    computation reaches range construction, both boundary points lie in text
    nodes of the text layer, the start offset is inside the start node's text,
    the end offset ([index + 1]) is at most the end node's length, and the
    start point comes strictly before the end character in document order:
    the range is never collapsed, backwards or out of bounds. *)
Theorem range_boundary_points_valid (c : Container) (text : jsstring)
    (sd ed : CharMapEntry) :
  reachesRange c text sd ed ->
  exists textNodes ts te,
    textLayer c = Some textNodes /\
    nth_error textNodes (node sd) = Some ts /\
    (index sd < length (textContent ts))%nat /\
    nth_error textNodes (node ed) = Some te /\
    (index ed + 1 <= length (textContent te))%nat /\
    entry_lt sd ed.
Proof.
  intros (textNodes & s & e & Htl & _ & Hlen & Hm & Hs & He & Hsd & Hed).
  apply array_get_nth in Hsd, Hed. destruct Hsd as [Hs0 Hsd], Hed as [He0 Hed].
  destruct (charMap_entry_points_at _ _ _ Hsd) as (ts & cs & Hts & Hcs & _).
  destruct (charMap_entry_points_at _ _ _ Hed) as (te & ce & Hte & Hce & _).
  exists textNodes, ts, te.
  split; [exact Htl | split; [exact Hts | split; [|split; [exact Hte | split]]]].
  - apply nth_error_Some. congruence.
  - assert (index ed < length (textContent te))%nat by (apply nth_error_Some; congruence).
    lia.
  - apply (StronglySorted_nth _ _ (charMap_sorted textNodes)
             (Z.to_nat s) (Z.to_nat e)); auto.
    pose proof (ANCHOR_LEN_range (normalizeQuery text)).
    destruct (matchLogic_produced _ _ _ _ Hm Hs He)
      as [(_ & _ & -> & _) | (_ & H5 & _ & -> & Hge & _)]; lia.
Qed.

(** On [fox_page] the span 8..20 runs from offset 11 of the first fragment
    to offset 9 of the second. *)
Lemma range_boundary_points_valid_witness :
  reachesRange fox_container fox_query
    {| node := 0; index := 11 |} {| node := 1; index := 9 |} /\
  exists textNodes ts te,
    textLayer fox_container = Some textNodes /\
    nth_error textNodes 0 = Some ts /\
    (11 < length (textContent ts))%nat /\
    nth_error textNodes 1 = Some te /\
    (9 + 1 <= length (textContent te))%nat /\
    entry_lt {| node := 0; index := 11 |} {| node := 1; index := 9 |}.
Proof.
  assert (Hreach : reachesRange fox_container fox_query
                     {| node := 0; index := 11 |} {| node := 1; index := 9 |}).
  { exists fox_page, 8, 20.
    repeat split; try (vm_compute; reflexivity); try discriminate. }
  split; [exact Hreach|].
  exact (range_boundary_points_valid fox_container fox_query _ _ Hreach).
Defined.

(** X5. The highlight starts on the query's first letter or digit and ends on
    its last one: whenever the computation reaches range construction, the
    code unit of the page at the start point is alphanumeric and lower-cases
    to the first character of the normalised query, and the code unit at the
    end point to its last character; this holds for the exact step and for
    the anchor fallback alike. *)
Theorem range_starts_and_ends_on_query (c : Container) (text : jsstring)
    (sd ed : CharMapEntry) :
  reachesRange c text sd ed ->
  exists textNodes ts cs te ce,
    textLayer c = Some textNodes /\
    nth_error textNodes (node sd) = Some ts /\
    nth_error (textContent ts) (index sd) = Some cs /\
    isAlphaNumeric cs = true /\
    nth_error (normalizeQuery text) 0 = Some (toLowerCase1 cs) /\
    nth_error textNodes (node ed) = Some te /\
    nth_error (textContent te) (index ed) = Some ce /\
    isAlphaNumeric ce = true /\
    nth_error (normalizeQuery text) (length (normalizeQuery text) - 1)
      = Some (toLowerCase1 ce).
Proof.
  intros (textNodes & s & e & Htl & _ & Hlen & Hm & Hs & He & Hsd & Hed).
  apply array_get_nth in Hsd, Hed. destruct Hsd as [Hs0 Hsd], Hed as [He0 Hed].
  destruct (charMap_entry_points_at _ _ _ Hsd) as (ts & cs & Hts & Hcs & Has & Hns).
  destruct (charMap_entry_points_at _ _ _ Hed) as (te & ce & Hte & Hce & Hae & Hne).
  destruct (matchLogic_ends _ _ _ _ Hm Hs He) as (_ & Hfirst & Hlast).
  exists textNodes, ts, cs, te, ce.
  repeat split; auto; congruence.
Qed.

(** On [fox_page] the span of "Brown Fox-Jumps!" starts on the "b" of the
    first fragment and ends on the "s" of the second. *)
Lemma range_starts_and_ends_on_query_witness :
  reachesRange fox_container fox_quoted
    {| node := 0; index := 11 |} {| node := 1; index := 9 |} /\
  exists textNodes ts cs te ce,
    textLayer fox_container = Some textNodes /\
    nth_error textNodes 0 = Some ts /\
    nth_error (textContent ts) 11 = Some cs /\
    isAlphaNumeric cs = true /\
    nth_error (normalizeQuery fox_quoted) 0 = Some (toLowerCase1 cs) /\
    nth_error textNodes 1 = Some te /\
    nth_error (textContent te) 9 = Some ce /\
    isAlphaNumeric ce = true /\
    nth_error (normalizeQuery fox_quoted) (length (normalizeQuery fox_quoted) - 1)
      = Some (toLowerCase1 ce).
Proof.
  assert (Hreach : reachesRange fox_container fox_quoted
                     {| node := 0; index := 11 |} {| node := 1; index := 9 |}).
  { exists fox_page, 8, 20.
    repeat split; try (vm_compute; reflexivity); try discriminate. }
  split; [exact Hreach|].
  exact (range_starts_and_ends_on_query fox_container fox_quoted _ _ Hreach).
Defined.

(** X6. A query whose opening is nowhere on the page removes the highlights:
    past the basic guard, on a page with text, when the normalised query has
    at least 5 characters and its head anchor (its first
    min(30, floor(length / 2)) characters) occurs nowhere in the normalised
    page text, neither step matches and the effect sets the highlights to the
    empty list, whatever was shown before. *)
Theorem absent_opening_clears_highlights (p : Props) (text : jsstring)
    (c : Container) (textNodes : list Text) (prev : list HighlightRect) :
  highlightText p = Some text ->
  textLayerReady p = true ->
  pageContainerRef p = Some c ->
  textLayer c = Some textNodes ->
  textNodes <> [] ->
  5 <= strlen (normalizeQuery text) ->
  (forall k, ~ occurs_at (normalizedPdfText (buildMap textNodes))
                         (head (normalizeQuery text)) k) ->
  matchLogic (normalizedPdfText (buildMap textNodes)) (normalizeQuery text) = (-1, -1) /\
  highlightEffect p = Normal (SetHighlights [] None) /\
  runEffect p prev = Normal [].
Proof.
  intros Ht Hr Hc Htl Hne Hlen Habsent.
  set (nt := normalizedPdfText (buildMap textNodes)) in *.
  set (nq := normalizeQuery text) in *.
  assert (Hx : indexOf nt nq 0 = -1).
  { destruct (Z.eq_dec (indexOf nt nq 0) (-1)) as [|Hx]; [assumption|].
    exfalso. destruct (indexOf_found _ _ _ Hx) as (_ & Hocc & _).
    apply (Habsent (indexOf nt nq 0)). rewrite head_firstn.
    now apply occurs_at_prefix. }
  assert (Hm : matchLogic nt nq = (-1, -1)).
  { rewrite (matchLogic_fallback _ _ Hx). unfold anchorFallback.
    destruct (5 <? ANCHOR_LEN nq); [|reflexivity].
    destruct (Z.eq_dec (indexOf nt (head nq) 0) (-1)) as [Hh|Hh];
      [now rewrite Hh|].
    exfalso. destruct (indexOf_found _ _ _ Hh) as (_ & Hocc & _).
    exact (Habsent _ Hocc). }
  assert (E : highlightEffect p = Normal (SetHighlights [] None)).
  { pose proof (normalizeQuery_length text) as Hraw. fold nq in Hraw.
    rewrite (guard_passed p text c Ht ltac:(lia) Hr Hc).
    unfold calculateHighlights. rewrite Htl.
    destruct (Z.eqb_spec (Z.of_nat (length textNodes)) 0) as [Hz|_].
    { destruct textNodes; [contradiction | simpl in Hz; lia]. }
    fold nq nt. destruct (Z.ltb_spec (strlen nq) 5); [lia|].
    now rewrite Hm. }
  split; [exact Hm | split; [exact E|]].
  unfold runEffect. now rewrite E.
Qed.

(** "Lorem ipsum ..." on [fox_page], with the highlights of an earlier query on
    screen: they are cleared. *)
Lemma absent_opening_clears_highlights_witness :
  5 <= strlen (normalizeQuery absent_query) /\
  (forall k, ~ occurs_at (normalizedPdfText (buildMap fox_page))
                         (head (normalizeQuery absent_query)) k) /\
  runEffect (props_of fox_container absent_query) stale_highlights = Normal [].
Proof.
  assert (Hlen : 5 <= strlen (normalizeQuery absent_query)) by (vm_compute; discriminate).
  assert (Habsent : forall k, ~ occurs_at (normalizedPdfText (buildMap fox_page))
                                          (head (normalizeQuery absent_query)) k).
  { intros k Hocc.
    apply (indexOf_complete _ _ 0 k) in Hocc; [|destruct Hocc; lia].
    apply Hocc. vm_compute. reflexivity. }
  assert (Hne : fox_page <> []) by discriminate.
  split; [exact Hlen | split; [exact Habsent|]].
  exact (proj2 (proj2 (absent_opening_clears_highlights
           (props_of fox_container absent_query) absent_query fox_container fox_page
           stale_highlights eq_refl eq_refl eq_refl eq_refl Hne Hlen Habsent))).
Defined.

End Located.

(* ================================================================== *)
(** ** Zoom and paging                                                  *)
(* ================================================================== *)

Section Controls.

Import PageControls.

Local Open Scope float_scope.
#[local] Set Warnings "-inexact-float".

(** The comparison of the specification of floats, read in the other
    direction. *)
Lemma SFcompare_antisym (a b : spec_float) :
  SFcompare b a
  = match SFcompare a b with Some c => Some (CompOpp c) | None => None end.
Proof.
  destruct a as [sa|sa| |sa ma ea], b as [sb|sb| |sb mb eb]; simpl;
    try destruct sa; try destruct sb; try reflexivity.
  - rewrite (Z.compare_antisym ea eb). destruct (ea ?= eb)%Z; simpl; try reflexivity.
    f_equal. rewrite Pos.compare_cont_antisym. simpl. now rewrite CompOpp_involutive.
  - rewrite (Z.compare_antisym ea eb). destruct (ea ?= eb)%Z; simpl; try reflexivity.
    f_equal. now rewrite Pos.compare_cont_antisym.
Qed.

Lemma SFcompare_None (a b : spec_float) :
  SFcompare a b = None -> a = S754_nan \/ b = S754_nan.
Proof.
  destruct a as [sa|sa| |sa ma ea], b as [sb|sb| |sb mb eb]; simpl; auto; discriminate.
Qed.

Lemma is_nan_Prim2SF (x : float) : is_nan x = false -> Prim2SF x <> S754_nan.
Proof.
  unfold is_nan. rewrite eqb_spec. intros H E. rewrite E in H. discriminate.
Qed.

Lemma ltb_asym (a b : float) : (a <? b) = true -> (b <? a) = false.
Proof.
  rewrite !ltb_spec. unfold SFltb.
  rewrite (SFcompare_antisym (Prim2SF a) (Prim2SF b)).
  destruct (SFcompare (Prim2SF a) (Prim2SF b)) as [[]|]; simpl; congruence.
Qed.

Lemma ltb_leb (a b : float) : (a <? b) = true -> (a <=? b) = true.
Proof.
  rewrite ltb_spec, leb_spec. unfold SFltb, SFleb.
  destruct (SFcompare (Prim2SF a) (Prim2SF b)) as [[]|]; congruence.
Qed.

Lemma not_ltb_leb (a b : float) :
  is_nan a = false -> is_nan b = false -> (b <? a) = false -> (a <=? b) = true.
Proof.
  intros Ha Hb. rewrite ltb_spec, leb_spec. unfold SFltb, SFleb.
  rewrite (SFcompare_antisym (Prim2SF a) (Prim2SF b)).
  destruct (SFcompare (Prim2SF a) (Prim2SF b)) as [[]|] eqn:E; simpl; try congruence.
  intros _. apply SFcompare_None in E. destruct E as [E|E]; exfalso;
    [now apply (is_nan_Prim2SF a) | now apply (is_nan_Prim2SF b)].
Qed.

(** The ways the clamp ends. *)
Lemma changeScale_cases (delta prevScale : float) :
  let x := prevScale + delta in
  (is_nan x = true /\ changeScale delta prevScale = nan) \/
  (is_nan x = false /\
   (changeScale delta prevScale = 0.6 \/
    changeScale delta prevScale = 2.5 \/
    (changeScale delta prevScale = x /\ (0.6 <? x) = true /\ (2.5 <? x) = false))).
Proof.
  intros x. unfold changeScale. fold x. unfold JSMath.max.
  change (is_nan 0.6) with false. simpl orb.
  destruct (is_nan x) eqn:Hn; [left; split; reflexivity | right; split; [reflexivity|]].
  destruct (0.6 <? x) eqn:Hlo.
  - unfold JSMath.min. rewrite Hn. change (is_nan 2.5) with false. simpl orb.
    destruct (x <? 2.5) eqn:Hhi.
    + right. right. split; [reflexivity | split; [reflexivity|]]. now apply ltb_asym.
    + destruct (2.5 <? x) eqn:Hhi'; [right; left; reflexivity|].
      change (JSMath.is_negzero 2.5) with false. cbv iota.
      right. right. auto.
  - left. destruct (x <? 0.6); [reflexivity|].
    change (JSMath.is_negzero 0.6) with false. reflexivity.
Qed.

(** X7. Zoom stays within its limits: whatever the previous scale and the
    step, the scale that [changeScale] sets is never below 0.6 and never above
    2.5, and unless the sum [prevScale + delta] is NaN it is a number between
    0.6 and 2.5, both included. So every scale reached from the initial 1.2 by
    any sequence of zoom steps lies in that interval. *)
Theorem scale_stays_within_limits (delta prevScale : float) :
  (changeScale delta prevScale <? 0.6) = false /\
  (2.5 <? changeScale delta prevScale) = false /\
  (is_nan (prevScale + delta) = false ->
   is_nan (changeScale delta prevScale) = false /\
   (0.6 <=? changeScale delta prevScale) = true /\
   (changeScale delta prevScale <=? 2.5) = true) /\
  (forall deltas,
     (zoomed deltas (changeScale delta prevScale) <? 0.6) = false /\
     (2.5 <? zoomed deltas (changeScale delta prevScale)) = false).
Proof.
  assert (Hone : forall d sc, (changeScale d sc <? 0.6) = false /\
                              (2.5 <? changeScale d sc) = false).
  { intros d sc.
    destruct (changeScale_cases d sc) as [[_ ->] | [_ [-> | [-> | (-> & Hlo & Hhi)]]]];
      try (split; reflexivity).
    split; [now apply ltb_asym | exact Hhi]. }
  split; [apply Hone | split; [apply Hone | split]].
  - intros Hn.
    destruct (changeScale_cases delta prevScale)
      as [[Hn' _] | [_ [-> | [-> | (-> & Hlo & Hhi)]]]];
      [congruence | repeat split; reflexivity | repeat split; reflexivity |].
    split; [exact Hn | split; [now apply ltb_leb|]].
    apply not_ltb_leb; [exact Hn | reflexivity | exact Hhi].
  - intros deltas. revert delta prevScale.
    induction deltas as [|d ds IH]; intros delta prevScale; [apply Hone|].
    apply (IH d (changeScale delta prevScale)).
Qed.

(** A zoom step from 2.45: the sum 2.55 is clamped to 2.5. *)
Lemma scale_stays_within_limits_witness :
  is_nan (2.45 + 0.1) = false /\
  changeScale 0.1 2.45 = 2.5 /\
  (0.6 <=? changeScale 0.1 2.45) = true /\
  (changeScale 0.1 2.45 <=? 2.5) = true.
Proof.
  assert (Hn : is_nan (2.45 + 0.1) = false) by (vm_compute; reflexivity).
  split; [exact Hn | split; [vm_compute; reflexivity|]].
  exact (proj2 (proj1 (proj2 (proj2 (scale_stays_within_limits 0.1 2.45))) Hn)).
Defined.

Local Close Scope float_scope.

Import App.

Lemma step_click_bounds (N page : Z) (ev : NavEvent) :
  isClick ev = true -> 1 <= page <= N -> 1 <= step (Some N) page ev <= N.
Proof.
  intros Hc Hp. destruct ev; try discriminate; simpl.
  - unfold clickPrev, prevDisabled. destruct (Z.leb_spec page 1); lia.
  - unfold clickNext, nextDisabled. simpl. destruct (Z.leb_spec N page); lia.
Qed.

Lemma step_lower_bound (numPages : option Z) (page : Z) (ev : NavEvent) :
  1 <= page -> 1 <= step numPages page ev.
Proof.
  intros Hp. destruct ev as [| |input key]; simpl.
  - unfold clickPrev, prevDisabled. destruct (Z.leb_spec page 1); lia.
  - unfold clickNext, nextDisabled. destruct (Z.leb_spec (numPagesOr0 numPages) page); lia.
  - unfold handleKeyDown. destruct input; [lia|].
    destruct key; try lia. destruct (Z.ltb_spec 1 page); lia.
Qed.

(** X8. The page buttons never leave the document: from a page between 1 and
    [numPages], any sequence of clicks on the previous and next buttons ends
    on a page between 1 and [numPages] (a disabled button does nothing); and
    until the document has loaded ([numPages] still null) no click moves the
    first page. *)
Theorem buttons_stay_in_document (N page : Z) (events : list NavEvent) :
  forallb isClick events = true ->
  1 <= page <= N ->
  1 <= run (Some N) events page <= N /\
  run None events 1 = 1.
Proof.
  intros Hc Hp. split.
  - revert page Hp. induction events as [|ev evs IH]; intros page Hp; [exact Hp|].
    simpl in Hc. apply andb_true_iff in Hc. destruct Hc as [Hev Hevs].
    simpl. apply IH; [exact Hevs|]. now apply step_click_bounds.
  - clear Hp. induction events as [|ev evs IH]; [reflexivity|].
    simpl in Hc. apply andb_true_iff in Hc. destruct Hc as [Hev Hevs].
    simpl. destruct ev; try discriminate; simpl; now apply IH.
Qed.

(** Three pages: next, next, next, previous ends on page 2. *)
Lemma buttons_stay_in_document_witness :
  forallb isClick [ClickNext; ClickNext; ClickNext; ClickPrev] = true /\
  1 <= 1 <= 3 /\
  run (Some 3) [ClickNext; ClickNext; ClickNext; ClickPrev] 1 = 2 /\
  1 <= run (Some 3) [ClickNext; ClickNext; ClickNext; ClickPrev] 1 <= 3.
Proof.
  assert (Hc : forallb isClick [ClickNext; ClickNext; ClickNext; ClickPrev] = true)
    by reflexivity.
  assert (Hp : 1 <= 1 <= 3) by lia.
  split; [exact Hc | split; [exact Hp | split; [reflexivity|]]].
  exact (proj1 (buttons_stay_in_document 3 1 _ Hc Hp)).
Defined.

(** X9. Paging never goes before the first page, but the right arrow goes past
    the last: from a page of at least 1, any sequence of button clicks and key
    presses leaves the page at least 1; keys typed into an input or a text
    area change nothing; and on the last page, where the next button is
    disabled, the right arrow key still moves to page [numPages + 1]. *)
Theorem paging_lower_bound_only (numPages : option Z) (page : Z)
    (events : list NavEvent) :
  1 <= page ->
  1 <= run numPages events page /\
  (forall key, step numPages page (KeyDown true key) = page) /\
  (forall N, numPages = Some N -> page = N ->
     clickNext page numPages = None /\
     step numPages page (KeyDown false ArrowRight) = N + 1).
Proof.
  intros Hp. split; [|split].
  - revert page Hp. induction events as [|ev evs IH]; intros page Hp; [exact Hp|].
    simpl. apply IH. now apply step_lower_bound.
  - intros key. reflexivity.
  - intros N -> ->. split; [|reflexivity].
    unfold clickNext, nextDisabled. simpl. now rewrite Z.leb_refl.
Qed.

(** Three pages, on page 3: left, right, right ends on page 4. *)
Lemma paging_lower_bound_only_witness :
  1 <= 3 /\
  run (Some 3) [KeyDown false ArrowLeft; KeyDown false ArrowRight;
                KeyDown false ArrowRight] 3 = 4 /\
  1 <= run (Some 3) [KeyDown false ArrowLeft; KeyDown false ArrowRight;
                     KeyDown false ArrowRight] 3.
Proof.
  assert (Hp : 1 <= 3) by lia.
  split; [exact Hp | split; [reflexivity|]].
  exact (proj1 (paging_lower_bound_only (Some 3) 3 _ Hp)).
Defined.

End Controls.

(* ================================================================== *)
(** ** Reply cleaning and the selection menu                            *)
(* ================================================================== *)

Section Text.

Import JSText Service.

Lemma contains_cons (c : char) (s q : jsstring) : contains s q -> contains (c :: s) q.
Proof. intros (a & b & ->). now exists (c :: a), b. Qed.

Lemma contains_app_l (pre s q : jsstring) : contains s q -> contains (pre ++ s) q.
Proof. intros (a & b & ->). exists (pre ++ a), b. now rewrite app_assoc. Qed.

Lemma contains_app_r (s post q : jsstring) : contains s q -> contains (s ++ post) q.
Proof. intros (a & b & ->). exists a, (b ++ post). now rewrite <- !app_assoc. Qed.

Lemma startsWith_contains (s q : jsstring) : startsWith s q = true -> contains s q.
Proof.
  intros H. apply startsWith_true in H. destruct H as [_ H].
  exists [], (skipn (length q) s). simpl. rewrite <- H at 1. symmetry. apply firstn_skipn.
Qed.

(** A match found in a string is found at its start or in its rest. *)
Lemma contains_inv (c : char) (s q : jsstring) :
  contains (c :: s) q -> startsWith (c :: s) q = true \/ contains s q.
Proof.
  intros (a & b & H). destruct a as [|x a].
  - left. simpl in H. rewrite H. apply startsWith_true.
    rewrite length_app, firstn_app, firstn_all, Nat.sub_diag. simpl.
    split; [lia | apply app_nil_r].
  - right. injection H as _ ->. now exists a, b.
Qed.

Lemma trimStart_suffix (s : jsstring) : exists pre, s = pre ++ trimStart s.
Proof.
  induction s as [|c s [pre IH]]; [now exists []|]. simpl.
  destruct (isWhiteSpace c); [|now exists []].
  exists (c :: pre). simpl. now rewrite <- IH.
Qed.

Lemma trimStart_head (s : jsstring) (c : char) (r : jsstring) :
  trimStart s = c :: r -> isWhiteSpace c = false.
Proof.
  induction s as [|d s IH]; [discriminate|]. simpl.
  destruct (isWhiteSpace d) eqn:E; [exact IH|]. intros [= <- _]. exact E.
Qed.

Lemma trimEnd_prefix (s : jsstring) : exists post, s = trimEnd s ++ post.
Proof.
  unfold trimEnd. destruct (trimStart_suffix (rev s)) as [pre H].
  exists (rev pre). rewrite <- rev_app_distr, <- H. symmetry. apply rev_involutive.
Qed.

Lemma trim_inside (s : jsstring) : exists pre post, s = pre ++ trim s ++ post.
Proof.
  unfold trim. destruct (trimStart_suffix s) as [pre H].
  destruct (trimEnd_prefix (trimStart s)) as [post H'].
  exists pre, post. now rewrite <- H', <- H.
Qed.

(** Trimmed text neither starts nor ends with white space. *)
Lemma trim_ends (s : jsstring) :
  (forall c r, trim s = c :: r -> isWhiteSpace c = false) /\
  (forall r c, trim s = r ++ [c] -> isWhiteSpace c = false).
Proof.
  unfold trim, trimEnd. split.
  - intros c r H.
    destruct (trimEnd_prefix (trimStart s)) as [post Hp]. unfold trimEnd in Hp.
    rewrite H in Hp. simpl in Hp. now apply (trimStart_head s c (r ++ post)).
  - intros r c H.
    apply (f_equal (@rev _)) in H. rewrite rev_involutive, rev_app_distr in H.
    simpl in H. now apply trimStart_head in H.
Qed.

Lemma removeAll_scan_skip (pat s : jsstring) : forall k,
  removeAll_scan pat s k = removeAll pat (skipn k s).
Proof.
  unfold removeAll. induction s as [|c s IH]; intros [|k]; try reflexivity.
  simpl. apply IH.
Qed.

(** One step of the removal. *)
Lemma removeAll_cons (pat : jsstring) (c : char) (s : jsstring) :
  removeAll pat (c :: s) =
  if startsWith (c :: s) pat
  then removeAll pat (skipn (length pat - 1) s)
  else c :: removeAll pat s.
Proof.
  unfold removeAll. cbn [removeAll_scan].
  destruct (startsWith (c :: s) pat); [apply removeAll_scan_skip | reflexivity].
Qed.

(** A string in which the pattern does not occur is left as it is. *)
Lemma removeAll_absent (pat s : jsstring) :
  ~ contains s pat -> removeAll pat s = s.
Proof.
  induction s as [|c s IH]; intros H; [reflexivity|]. rewrite removeAll_cons.
  destruct (startsWith (c :: s) pat) eqn:E.
  - exfalso. apply H. now apply startsWith_contains.
  - f_equal. apply IH. intros Hc. apply H. now apply contains_cons.
Qed.

Lemma startsWith_fence (s : jsstring) :
  startsWith s fence = true <-> exists r, s = 96 :: 96 :: 96 :: r.
Proof.
  split.
  - intros H. apply startsWith_true in H. destruct H as [_ H].
    destruct s as [|a [|b [|c r]]]; try discriminate.
    injection H as -> -> ->. now exists r.
  - intros [r ->]. reflexivity.
Qed.

(** What is left of a string after the fences are removed starts with a
    backtick, or with two, only if the string did. *)
Lemma removeAll_fence_head (s : jsstring) :
  (forall r, removeAll fence s = 96 :: r -> exists r', s = 96 :: r') /\
  (forall r, removeAll fence s = 96 :: 96 :: r -> exists r', s = 96 :: 96 :: r').
Proof.
  assert (H1 : forall s r, removeAll fence s = 96 :: r -> exists r', s = 96 :: r').
  { clear s. intros [|c s] r; [discriminate|]. rewrite removeAll_cons.
    destruct (startsWith (c :: s) fence) eqn:E.
    - apply startsWith_fence in E. destruct E as [r' E]. intros _. rewrite E. eauto.
    - intros [= -> _]. eauto. }
  split; [apply H1|].
  destruct s as [|c s]; intros r; [discriminate|]. rewrite removeAll_cons.
  destruct (startsWith (c :: s) fence) eqn:E.
  - apply startsWith_fence in E. destruct E as [r' E]. intros _. rewrite E. eauto.
  - intros [= -> H]. apply H1 in H. destruct H as [r' ->]. eauto.
Qed.

(** After the removal no fence is left, not even one that the removal would
    have put together. *)
Lemma removeAll_fence_clean (s : jsstring) : ~ contains (removeAll fence s) fence.
Proof.
  remember (length s) as n eqn:Hn. revert s Hn.
  induction n as [n IH] using lt_wf_ind. intros s Hn.
  destruct s as [|c s]; [intros (a & b & H); destruct a; discriminate|].
  rewrite removeAll_cons.
  destruct (startsWith (c :: s) fence) eqn:E.
  - apply (IH (length (skipn (length fence - 1) s))); [|reflexivity].
    rewrite length_skipn. simpl in Hn. lia.
  - intros Hc. apply contains_inv in Hc.
    destruct Hc as [Hc | Hc].
    + apply startsWith_fence in Hc. destruct Hc as [r Hc]. injection Hc as -> Hc.
      apply (proj2 (removeAll_fence_head s)) in Hc. destruct Hc as [r' ->].
      discriminate.
    + apply (IH (length s)) in Hc; [exact Hc | simpl in Hn; lia | reflexivity].
Qed.

(** X10. A cleaned reply holds no Markdown fence: whatever the model
    returned, what [cleanJson] (and the same expression in the Gemini
    service) hands to the JSON parser contains no run of three backticks,
    neither one that was in the reply nor one put together by the removals,
    and neither starts nor ends with white space; an empty reply becomes the
    empty object; and a reply without fences is only trimmed, no character
    inside it is touched. *)
Theorem cleaned_reply_has_no_fence (text : jsstring) :
  ~ contains (cleanJson text) fence /\
  ~ contains (stripFences text) fence /\
  (forall c r, cleanJson text = c :: r -> isWhiteSpace c = false) /\
  (forall r c, cleanJson text = r ++ [c] -> isWhiteSpace c = false) /\
  (text = [] -> cleanJson text = lit "{}") /\
  (text <> [] -> ~ contains text fence -> cleanJson text = trim text).
Proof.
  assert (Hstrip : forall t, ~ contains (stripFences t) fence).
  { intros t Hc. unfold stripFences in Hc.
    destruct (trim_inside (removeAll fence (removeAll fence_json t))) as (pre & post & H).
    apply (removeAll_fence_clean (removeAll fence_json t)).
    rewrite H. apply contains_app_l, contains_app_r, Hc. }
  assert (Hends : forall t,
            (forall c r, stripFences t = c :: r -> isWhiteSpace c = false) /\
            (forall r c, stripFences t = r ++ [c] -> isWhiteSpace c = false))
    by (intros t; apply trim_ends).
  split; [|split; [apply Hstrip | split; [|split; [|split]]]].
  - destruct text as [|c t]; [|apply Hstrip].
    intros (a & b & H). vm_compute in H.
    destruct a as [|x [|y [|z a]]]; try discriminate; destruct a; discriminate.
  - destruct text as [|d t]; [|apply Hends].
    intros c r [= <- _]. reflexivity.
  - destruct text as [|d t]; [|apply Hends].
    intros r c H. change (cleanJson []) with ([123] ++ [125]) in H.
    apply app_inj_tail in H. destruct H as [_ <-]. reflexivity.
  - intros ->. reflexivity.
  - intros Hne Hno. destruct text as [|c t]; [contradiction|].
    unfold cleanJson, stripFences.
    rewrite (removeAll_absent fence_json), (removeAll_absent fence); auto.
    intros (a & b & H). apply Hno. exists a, (lit "json" ++ b).
    rewrite H. unfold fence_json. now rewrite <- !app_assoc.
Qed.

(** A reply with two backticks, a [json] fence and a backtick run together:
    removing the [json] fence leaves three backticks, which the second
    removal takes away. A plain reply is only trimmed. *)
Lemma cleaned_reply_has_no_fence_witness :
  cleanJson ([96; 96] ++ fence_json ++ [96] ++ lit " {} ") = lit "{}" /\
  lit " [1, 2] " <> [] /\
  ~ contains (lit " [1, 2] ") fence /\
  cleanJson (lit " [1, 2] ") = trim (lit " [1, 2] ").
Proof.
  assert (Hne : lit " [1, 2] " <> []) by discriminate.
  assert (Hno : ~ contains (lit " [1, 2] ") fence).
  { intros Hc. assert (E : removeAll fence (lit " [1, 2] ") = lit " [1, 2] ")
      by (vm_compute; reflexivity).
    apply (removeAll_fence_clean (lit " [1, 2] ")). now rewrite E. }
  split; [vm_compute; reflexivity | split; [exact Hne | split; [exact Hno|]]].
  exact (proj2 (proj2 (proj2 (proj2 (proj2
           (cleaned_reply_has_no_fence (lit " [1, 2] ")))))) Hne Hno).
Defined.

Import SelectionMenu.

(** X11. The selection menu opens only on visible text of the page: it is set
    to [null] when there is no selection, when the selection is collapsed,
    when the container is not mounted, when the selection starts outside the
    container and when it holds white space only; and when it opens, the text
    it carries (the text that "explain" and "save" pass on) is the trimmed
    selection: not empty, and without white space at either end. *)
Theorem selection_menu_text_is_visible (selection : option Selection)
    (containerMounted : bool) :
  (forall menu,
     handleMouseUp selection containerMounted = Some menu ->
     exists sel,
       selection = Some sel /\ isCollapsed sel = false /\
       containerMounted = true /\ anchorInContainer sel = true /\
       text menu = trim (toString sel) /\
       text menu <> [] /\
       (forall c r, text menu = c :: r -> isWhiteSpace c = false) /\
       (forall r c, text menu = r ++ [c] -> isWhiteSpace c = false)) /\
  (forall sel,
     selection = Some sel -> Forall (fun c => isWhiteSpace c = true) (toString sel) ->
     handleMouseUp selection containerMounted = None).
Proof.
  split.
  - intros menu H. destruct selection as [sel|]; [|discriminate].
    simpl in H. destruct (isCollapsed sel) eqn:Hc; [discriminate|].
    destruct containerMounted; [|discriminate]. simpl in H.
    destruct (Z.ltb_spec 0 (strlen (trim (toString sel)))) as [Hl|Hl]; [|discriminate].
    destruct (anchorInContainer sel) eqn:Ha; [|discriminate].
    injection H as <-. exists sel. simpl.
    split; [reflexivity | split; [exact Hc | split; [reflexivity | split; [exact Ha|]]]].
    split; [reflexivity | split; [|apply trim_ends]].
    intros E. rewrite E in Hl. unfold strlen in Hl. simpl in Hl. lia.
  - intros sel -> Hws. simpl.
    destruct (isCollapsed sel || negb containerMounted); [reflexivity|].
    assert (E : trim (toString sel) = []).
    { unfold trim, trimEnd.
      assert (Hs : forall l, Forall (fun c => isWhiteSpace c = true) l -> trimStart l = []).
      { induction 1 as [|c l Hc _ IH]; [reflexivity|]. simpl. now rewrite Hc. }
      rewrite (Hs _ Hws). reflexivity. }
    rewrite E. reflexivity.
Qed.

(** " lazy dog " selected inside the page, and a selection of blanks. *)
Lemma selection_menu_text_is_visible_witness :
  (exists menu,
     handleMouseUp (Some dog_selection) true = Some menu /\
     text menu = lit "lazy dog" /\ text menu <> []) /\
  Forall (fun c => isWhiteSpace c = true) (toString blank_selection) /\
  handleMouseUp (Some blank_selection) true = None.
Proof.
  split.
  - eexists. split; [vm_compute; reflexivity|].
    destruct (proj1 (selection_menu_text_is_visible (Some dog_selection) true) _ eq_refl)
      as (sel & _ & _ & _ & _ & _ & Hne & _).
    split; [reflexivity | exact Hne].
  - assert (Hws : Forall (fun c => isWhiteSpace c = true) (toString blank_selection))
      by (repeat constructor).
    split; [exact Hws|].
    exact (proj2 (selection_menu_text_is_visible (Some blank_selection) true)
             blank_selection eq_refl Hws).
Defined.

End Text.

(* ================================================================== *)
(** ** The loader                                                       *)
(* ================================================================== *)

Section Loader.

Import GamifiedLoader.

Local Open Scope float_scope.
#[local] Set Warnings "-inexact-float".

Lemma tick_bound (prev : float) : (99.5 <? tick prev) = false.
Proof.
  unfold tick. cbv zeta.
  destruct (99.5 <=? prev + JSMath.max ((100 - prev) * 0.02) 0.05) eqn:E; [reflexivity|].
  destruct (99.5 <? prev + JSMath.max ((100 - prev) * 0.02) 0.05) eqn:E'; [|reflexivity].
  apply ltb_leb in E'. congruence.
Qed.

Local Close Scope float_scope.

(** The updater keeps a non-negative index inside the message list. *)
Lemma nextMessage_bound (prev : Z) :
  0 <= prev -> 0 <= nextMessage prev < LOADING_MESSAGES_length.
Proof.
  intros H. unfold nextMessage, LOADING_MESSAGES_length.
  apply Z.rem_bound_pos; lia.
Qed.

(** X12. The loader never claims to be done and never runs out of messages:
    whatever the progress was, a tick leaves it at most 99.5 (it is never
    above 99.5 after any number of ticks, at least one); the message index,
    which starts at 0, is an index of the message list after any number of
    advances; the updater keeps every non-negative index inside the list,
    comes back to where it was after seven advances from an index of the
    list, and follows the last message by the first. The remainder takes the
    sign of the dividend, so the updater does not bring a negative index
    back into the list: from -2 it gives -1. *)
Theorem loader_stays_in_bounds (progress : float) (n : nat) (messageIndex : Z) :
  (99.5 <? ticks (S n) progress)%float = false /\
  0 <= messageIndexAfter n < LOADING_MESSAGES_length /\
  (0 <= messageIndex -> 0 <= nextMessage messageIndex < LOADING_MESSAGES_length) /\
  (0 <= messageIndex < LOADING_MESSAGES_length ->
   Nat.iter 7 nextMessage messageIndex = messageIndex /\
   (messageIndex = LOADING_MESSAGES_length - 1 -> nextMessage messageIndex = 0)) /\
  nextMessage (-2) = -1.
Proof.
  split; [simpl; apply tick_bound | split; [|split; [|split]]].
  - unfold messageIndexAfter. induction n as [|n IH].
    + simpl. unfold LOADING_MESSAGES_length. lia.
    + rewrite Nat.iter_succ. apply nextMessage_bound. lia.
  - unfold nextMessage, LOADING_MESSAGES_length. intros H.
    pose proof (Z.rem_bound_pos (messageIndex + 1) 7). lia.
  - intros H. unfold LOADING_MESSAGES_length in *. split.
    + assert (messageIndex = 0 \/ messageIndex = 1 \/ messageIndex = 2 \/
              messageIndex = 3 \/ messageIndex = 4 \/ messageIndex = 5 \/
              messageIndex = 6) as Hcases by lia.
      repeat (destruct Hcases as [-> | Hcases]; [reflexivity|]). now subst.
    + intros ->. reflexivity.
  - reflexivity.
Qed.

(** A tick at 99.49, and the last message followed by the first. *)
Lemma loader_stays_in_bounds_witness :
  ticks 1 99.49%float = 99.5%float /\
  0 <= 6 < LOADING_MESSAGES_length /\
  nextMessage 6 = 0 /\
  Nat.iter 7 nextMessage 6 = 6 /\
  messageIndexAfter 9 = 2.
Proof.
  assert (H : 0 <= 6 < LOADING_MESSAGES_length) by (unfold LOADING_MESSAGES_length; lia).
  destruct (proj1 (proj2 (proj2 (proj2 (loader_stays_in_bounds 99.49%float 0 6)))) H)
    as [Hc Hl].
  split; [vm_compute; reflexivity | split; [exact H | split; [|split; [exact Hc|]]]].
  - apply Hl. reflexivity.
  - vm_compute; reflexivity.
Defined.

End Loader.

(* ================================================================== *)
(** ** The cache keys                                                   *)
(* ================================================================== *)

Section Cache.

Import Storage.

Lemma digits_range (u : Decimal.uint) : Forall (fun c => 48 <= c <= 57) (digits u).
Proof. induction u; simpl; constructor; auto; lia. Qed.

Lemma digits_inj (u : Decimal.uint) : forall u', digits u = digits u' -> u = u'.
Proof.
  induction u as [|u IH|u IH|u IH|u IH|u IH|u IH|u IH|u IH|u IH|u IH];
    intros [|u'|u'|u'|u'|u'|u'|u'|u'|u'|u']; simpl; intros H;
    try discriminate; try reflexivity;
    injection H as H; f_equal; now apply IH.
Qed.

Lemma numberToString_inj (n m : Z) : numberToString n = numberToString m -> n = m.
Proof.
  unfold numberToString. intros H. apply DecimalZ.to_int_inj.
  destruct (Z.to_int n) as [u|u], (Z.to_int m) as [u'|u'].
  - f_equal. now apply digits_inj.
  - exfalso. pose proof (digits_range u) as Hr. rewrite H in Hr.
    apply Forall_inv in Hr. lia.
  - exfalso. pose proof (digits_range u') as Hr. rewrite <- H in Hr.
    apply Forall_inv in Hr. lia.
  - injection H as H. f_equal. now apply digits_inj.
Qed.

Lemma numberToString_no_underscore (n : Z) : ~ In 95 (numberToString n).
Proof.
  unfold numberToString. intros H.
  destruct (Z.to_int n) as [u|u]; [|destruct H as [H|H]; [discriminate|]];
    pose proof (digits_range u) as Hr; rewrite Forall_forall in Hr;
    specialize (Hr _ H); lia.
Qed.

(** A string is cut in one way only at its last separator. *)
Lemma split_at_last (u : char) (a : jsstring) : forall b x y,
  a ++ [u] ++ x = b ++ [u] ++ y -> ~ In u x -> ~ In u y -> a = b /\ x = y.
Proof.
  induction a as [|c a IH]; intros [|d b] x y H Hx Hy; simpl in H.
  - injection H as H. auto.
  - injection H as -> H. exfalso. apply Hx. rewrite H. apply in_or_app. right. now left.
  - injection H as -> H. exfalso. apply Hy. rewrite <- H. apply in_or_app. right. now left.
  - injection H as -> H. destruct (IH b x y H Hx Hy) as [-> ->]. auto.
Qed.

Lemma translationId_inj (f f' : jsstring) (p p' : Z) :
  translationId f p = translationId f' p' -> f = f' /\ p = p'.
Proof.
  unfold translationId. intros H.
  apply split_at_last in H; try apply numberToString_no_underscore.
  destruct H as [-> H]. split; [reflexivity | now apply numberToString_inj].
Qed.

Lemma jsstring_eqb_true (a b : jsstring) : jsstring_eqb a b = true <-> a = b.
Proof. unfold jsstring_eqb. destruct (list_eq_dec Z.eq_dec a b); split; congruence. Qed.

Section Store.

Variable PageTranslation : Type.

Lemma get_put_same (store : Store PageTranslation) (r : TranslationRecord PageTranslation) :
  get (put store r) (id r) = Some r.
Proof.
  unfold get, put. simpl.
  now rewrite (proj2 (jsstring_eqb_true (id r) (id r)) eq_refl).
Qed.

Lemma get_put_other (store : Store PageTranslation)
    (r : TranslationRecord PageTranslation) (key : jsstring) :
  key <> id r -> get (put store r) key = get store key.
Proof.
  intros Hne. unfold get, put. simpl.
  destruct (jsstring_eqb (id r) key) eqn:E;
    [apply jsstring_eqb_true in E; congruence|].
  induction store as [|x store IH]; [reflexivity|]. simpl.
  destruct (jsstring_eqb (id x) (id r)) eqn:Ex; simpl.
  - apply jsstring_eqb_true in Ex.
    destruct (jsstring_eqb (id x) key) eqn:Ek; [|exact IH].
    apply jsstring_eqb_true in Ek. congruence.
  - destruct (jsstring_eqb (id x) key); [reflexivity | exact IH].
Qed.

(** X13. The translation cache gives back what was saved, page by page and
    file by file: a page translation is found again under the fingerprint and
    page number it was saved with (the latest one, if it was saved twice);
    saving the translation of another page, or of the same page of a file with
    another fingerprint, never changes or hides it, because the key
    [fingerprint_page] determines both parts; and an empty cache answers
    [null]. *)
Theorem translation_cache_round_trip (store : Store PageTranslation)
    (fingerprint : jsstring) (pageNumber : Z) (data : PageTranslation) (now : Z) :
  getPageTranslation fingerprint pageNumber
    (savePageTranslation fingerprint pageNumber data now store) = Some data /\
  (forall fingerprint' pageNumber' data' now',
     (fingerprint', pageNumber') <> (fingerprint, pageNumber) ->
     getPageTranslation fingerprint pageNumber
       (savePageTranslation fingerprint' pageNumber' data' now' store)
     = getPageTranslation fingerprint pageNumber store) /\
  (forall fingerprint' pageNumber',
     translationId fingerprint' pageNumber' = translationId fingerprint pageNumber ->
     fingerprint' = fingerprint /\ pageNumber' = pageNumber) /\
  getPageTranslation fingerprint pageNumber (@nil (TranslationRecord PageTranslation))
    = None.
Proof.
  split; [|split; [|split; [|reflexivity]]].
  - unfold getPageTranslation, savePageTranslation.
    set (r := {| id := translationId fingerprint pageNumber;
                 Storage.fingerprint := fingerprint;
                 Storage.pageNumber := pageNumber;
                 data := data; createdAt := now |}).
    change (translationId fingerprint pageNumber) with (id r).
    now rewrite get_put_same.
  - intros f' p' d' now' Hne. unfold getPageTranslation, savePageTranslation.
    rewrite get_put_other; [reflexivity|]. simpl. intros E.
    apply translationId_inj in E. destruct E as [-> ->]. now apply Hne.
  - intros f' p'. apply translationId_inj.
Qed.

End Store.

(** Page 1 saved next to page 12, and page 12 saved again: page 12 answers
    with its latest translation, page 1 with its own, page 2 with nothing. *)
Lemma translation_cache_round_trip_witness :
  let fp := generateFingerprint sample_file in
  (fp, 1) <> (fp, 12) /\
  getPageTranslation fp 12
    (savePageTranslation fp 1 (lit "page one") 2 sample_store)
  = Some (lit "page twelve") /\
  getPageTranslation fp 12
    (savePageTranslation fp 12 (lit "page twelve, again") 3 sample_store)
  = Some (lit "page twelve, again") /\
  getPageTranslation fp 2 sample_store = None.
Proof.
  intros fp.
  assert (Hne : (fp, 1) <> (fp, 12)) by (intros [= ]).
  split; [exact Hne | split; [|split; [|vm_compute; reflexivity]]].
  - rewrite (proj1 (proj2 (translation_cache_round_trip jsstring sample_store
                             fp 12 (lit "page twelve") 1)) fp 1 (lit "page one") 2 Hne).
    vm_compute. reflexivity.
  - exact (proj1 (translation_cache_round_trip jsstring sample_store
                    fp 12 (lit "page twelve, again") 3)).
Defined.

(** X14. Two files get the same fingerprint only if their name, size and
    modification time all agree: the fingerprint [name_size_lastModified]
    is read back in one way only, whatever underscores the name contains. *)
Theorem fingerprint_identifies_file (f g : File) :
  generateFingerprint f = generateFingerprint g -> f = g.
Proof.
  unfold generateFingerprint. intros H.
  rewrite !(app_assoc (name _)), !(app_assoc (name _ ++ _)) in H.
  apply split_at_last in H; try apply numberToString_no_underscore.
  destruct H as [H Hl]. rewrite <- !app_assoc in H.
  apply split_at_last in H; try apply numberToString_no_underscore.
  destruct H as [Hn Hs].
  apply numberToString_inj in Hl, Hs.
  destruct f, g. simpl in *. congruence.
Qed.

(** The sample file, read from disk twice. *)
Lemma fingerprint_identifies_file_witness :
  generateFingerprint sample_file
    = generateFingerprint {| name := lit "paper_v2_final.pdf"; size := 1048576;
                             lastModified := 1700000000000 |} /\
  generateFingerprint sample_file = lit "paper_v2_final.pdf_1048576_1700000000000".
Proof.
  split; [|vm_compute; reflexivity].
  exact (f_equal generateFingerprint
           (fingerprint_identifies_file sample_file
              {| name := lit "paper_v2_final.pdf"; size := 1048576;
                 lastModified := 1700000000000 |} eq_refl)).
Defined.

End Cache.

(* ================================================================== *)
(** ** Layout and page translations                                     *)
(* ================================================================== *)

Section AppState.

Import Layout.

Local Open Scope float_scope.

Lemma step_fullOrSplit (st : LayoutState) (ev : LayoutEvent) :
  fullOrSplit (leftWidth st) -> fullOrSplit (leftWidth (step st ev)).
Proof.
  intros H. destruct ev as [| |clientX innerWidth|]; simpl; try exact H.
  - destruct (isResizing st); [|exact H].
    destruct (20 <? clientX / innerWidth * 100) eqn:Hlo; [|exact H].
    destruct (clientX / innerWidth * 100 <? 80) eqn:Hhi; [|exact H].
    right. simpl. auto.
  - destruct (80 <? leftWidth st); [right; split; reflexivity | left; reflexivity].
Qed.

(** X15. The split between the document and the side panel keeps its shape:
    from the initial 50%, after any sequence of grip drags, mouse moves and
    sidebar toggles the width of the document pane is either 100% or strictly
    between 20% and 80%; a mouse move changes it only while the grip is held;
    and the toggle key switches a split layout to full width and full width
    back to the 50% split. *)
Theorem layout_full_or_split (events : list LayoutEvent) (st : LayoutState) :
  fullOrSplit (leftWidth (run events initial)) /\
  (fullOrSplit (leftWidth st) -> fullOrSplit (leftWidth (run events st))) /\
  (forall clientX innerWidth,
     isResizing st = false -> step st (MouseMove clientX innerWidth) = st) /\
  (fullOrSplit (leftWidth st) ->
   (leftWidth st = 100 -> leftWidth (step st ToggleSidebar) = 50) /\
   (leftWidth st <> 100 -> leftWidth (step st ToggleSidebar) = 100)).
Proof.
  assert (Hrun : forall evs s, fullOrSplit (leftWidth s) ->
                               fullOrSplit (leftWidth (run evs s))).
  { induction evs as [|ev evs IH]; intros s Hs; [exact Hs|].
    simpl. apply IH. now apply step_fullOrSplit. }
  split; [apply Hrun; right; split; reflexivity|].
  split; [apply Hrun|]. split.
  - intros clientX innerWidth Hr. simpl. now rewrite Hr.
  - intros [Hfull | [Hlo Hhi]]; split; intros H; simpl.
    + rewrite Hfull. reflexivity.
    + contradiction.
    + rewrite H in Hhi. discriminate.
    + now rewrite (ltb_asym _ _ Hhi).
Qed.

(** Toggle to full width, toggle back, take the grip and drag to 30% of a
    window 1200 wide, try to drag on to 10%: the pane stays at 30%. *)
Lemma layout_full_or_split_witness :
  fullOrSplit (leftWidth initial) /\
  leftWidth (run [ToggleSidebar; ToggleSidebar; StartResizing;
                  MouseMove 360 1200; MouseMove 120 1200; StopResizing] initial) = 30 /\
  fullOrSplit (leftWidth (run [ToggleSidebar; ToggleSidebar; StartResizing;
                               MouseMove 360 1200; MouseMove 120 1200; StopResizing]
                              initial)).
Proof.
  assert (H : fullOrSplit (leftWidth initial)) by (right; split; reflexivity).
  split; [exact H | split; [vm_compute; reflexivity|]].
  exact (proj1 (proj2 (layout_full_or_split _ initial)) H).
Defined.

Local Close Scope float_scope.

Import Translate.

Lemma has_false (m : PageMap) (k : Z) : has m k = false <-> m k = None.
Proof. unfold has. destruct (m k); split; congruence. Qed.

(** X16. The outcomes of [processCanvas]. It changes nothing for a page the
    render that created it already had a translation of; otherwise it is its
    updates before the [await] followed by those after it. The test reads the
    translations of that render, not the state: a callback whose render had
    not seen the page runs in full even when the state holds a translation of
    the page by then, and, the page being the current one and the call
    failing, it replaces that translation by the error block. The updates
    after the [await], applied to whatever the state is by then, touch no
    other page's entry. For the current page the flag [isTranslatingPage] is
    raised before the [await], and afterwards, whether the translation
    succeeded or threw, the flag is down and the page has an entry that
    carries the page's own number: the translation on success, the error
    block on failure. For a prefetched page a failure leaves the state as it
    is, and a success stores the page and clears [prefetchPage] when it was
    this page. A render of a page that is not the current one of its render
    is ignored by [handleMainPageRendered]. *)
Theorem page_translation_outcomes (cl : Closure) (pageNum : Z)
    (translated : Completion PageTranslation) (st later : TranslationState) :
  (has (seenTranslations cl) pageNum = true ->
   processCanvas cl pageNum translated st = st) /\
  (has (seenTranslations cl) pageNum = false ->
   processCanvas cl pageNum translated st
   = processCanvas_finish cl pageNum translated (processCanvas_start cl pageNum st)) /\
  (has (seenTranslations cl) pageNum = false ->
   pageNum = debouncedPage cl ->
   forall e,
     pageTranslations (processCanvas cl pageNum (Throw e) st) pageNum
     = Some {| pageNumber := pageNum; blocks := [errorBlock]; glossary := [] |}) /\
  (forall k, k <> pageNum ->
     pageTranslations (processCanvas_finish cl pageNum translated later) k
     = pageTranslations later k /\
     pageTranslations (processCanvas cl pageNum translated st) k
     = pageTranslations st k) /\
  (pageNum = debouncedPage cl ->
   isTranslatingPage (processCanvas_start cl pageNum st) = true /\
   isTranslatingPage (processCanvas_finish cl pageNum translated later) = false /\
   exists t,
     pageTranslations (processCanvas_finish cl pageNum translated later) pageNum
       = Some t /\
     pageNumber t = pageNum /\
     match translated with
     | Normal translation => t = withPageNumber translation pageNum
     | Throw _ => blocks t = [errorBlock] /\ glossary t = []
     end) /\
  (pageNum <> debouncedPage cl ->
   processCanvas_start cl pageNum st = st /\
   isTranslatingPage (processCanvas_finish cl pageNum translated later)
     = isTranslatingPage later /\
   match translated with
   | Normal translation =>
       pageTranslations (processCanvas_finish cl pageNum translated later) pageNum
         = Some (withPageNumber translation pageNum) /\
       (seenPrefetchPage cl = Some pageNum ->
        prefetchPage (processCanvas_finish cl pageNum translated later) = None)
   | Throw _ => processCanvas_finish cl pageNum translated later = later
   end) /\
  (pageNum <> debouncedPage cl ->
   handleMainPageRendered cl pageNum translated st = st).
Proof.
  split; [|split; [|split; [|split; [|split; [|split]]]]].
  - intros H. unfold processCanvas. now rewrite H.
  - intros H. unfold processCanvas. now rewrite H.
  - intros H Hcur e. unfold processCanvas. rewrite H.
    unfold processCanvas_finish, processCanvas_start.
    apply Z.eqb_eq in Hcur. rewrite Hcur. simpl.
    unfold set. now rewrite Z.eqb_refl.
  - intros k Hk. apply Z.eqb_neq in Hk.
    unfold processCanvas, processCanvas_finish, processCanvas_start. split.
    + destruct (pageNum =? debouncedPage cl); destruct translated; simpl;
        unfold set; try rewrite Hk; reflexivity.
    + destruct (has (seenTranslations cl) pageNum); [reflexivity|].
      destruct (pageNum =? debouncedPage cl); destruct translated; simpl;
        unfold set; try rewrite Hk; reflexivity.
  - intros Hcur. unfold processCanvas_finish, processCanvas_start.
    apply Z.eqb_eq in Hcur. rewrite Hcur.
    split; [reflexivity|]. destruct translated; simpl; (split; [reflexivity|]);
      unfold set; rewrite Z.eqb_refl; eexists; (split; [reflexivity|]); simpl; auto.
  - intros Hcur. unfold processCanvas_finish, processCanvas_start.
    apply Z.eqb_neq in Hcur. rewrite Hcur. split; [reflexivity|].
    destruct translated; simpl; (split; [reflexivity|]); [|reflexivity].
    unfold set. rewrite Z.eqb_refl. split; [reflexivity|].
    intros ->. simpl. now rewrite Z.eqb_refl.
  - intros Hcur. unfold handleMainPageRendered. apply Z.eqb_neq in Hcur. now rewrite Hcur.
Qed.

(** The translation of page 3 fails while the reader is on it: the page
    shows the error block and the flag is down again. The same call made by
    a callback of the render that had seen no translation, when the state
    holds one of page 3 by then, replaces it by the error block. *)
Lemma page_translation_outcomes_witness :
  has (seenTranslations reading_page_3) 3 = false /\
  3 = debouncedPage reading_page_3 /\
  isTranslatingPage
    (processCanvas reading_page_3 3 (Throw InvalidStateError) nothing_translated) = false /\
  pageTranslations
    (processCanvas reading_page_3 3 (Throw InvalidStateError) nothing_translated) 3
  = Some {| pageNumber := 3; blocks := [errorBlock]; glossary := [] |} /\
  pageTranslations page_3_translated 3 = Some page_3_translation /\
  pageTranslations
    (processCanvas reading_page_3 3 (Throw InvalidStateError) page_3_translated) 3
  = Some {| pageNumber := 3; blocks := [errorBlock]; glossary := [] |}.
Proof.
  assert (Hseen : has (seenTranslations reading_page_3) 3 = false) by reflexivity.
  assert (Hcur : 3 = debouncedPage reading_page_3) by reflexivity.
  destruct (proj1 (proj2 (proj2 (proj2 (proj2 (page_translation_outcomes reading_page_3 3
              (Throw InvalidStateError) nothing_translated
              (processCanvas_start reading_page_3 3 nothing_translated)))))) Hcur)
    as (_ & Hflag & _).
  split; [exact Hseen | split; [exact Hcur | split; [exact Hflag | split; [reflexivity|]]]].
  split; [reflexivity|].
  exact (proj1 (proj2 (proj2 (page_translation_outcomes reading_page_3 3
           (Throw InvalidStateError) page_3_translated page_3_translated)))
         Hseen Hcur InvalidStateError).
Defined.

End AppState.
